(** * Block alignment and mutual-diff classification of [textComparison.js]

    A shallow embedding of [src/utils/textComparison.js] (the version with
    [createOptimalAlignment]) and the properties of its block aligner,
    pair classifier, similarity metric and top-level entry point.

    Conventions of the embedding.
    - A JavaScript string is a [string]; a character stands for one code
      unit below 256 (Latin-1), so [String.length] is JS [.length].
    - Scores are quotients of two string lengths.  They are kept as exact
      rationals ([Q]): for lengths below 2^26 the IEEE double quotient and
      the comparisons the code makes ([> 0.8], [> bestScore]) agree with the
      exact ones, two distinct quotients being at least 2^-52 apart.
    - Code that can throw lives in the [result] monad.
    - The DOM and the diff-match-patch library are not part of the
      repository: a DOM element is a record of what the code reads from it,
      and the library's [diff_main] is a variable of the section. *)

From Stdlib Require Import List String Ascii Bool Arith ZArith QArith Lia.
From Stdlib Require Import DecimalString.
Import ListNotations.

Local Open Scope string_scope.
Local Open Scope nat_scope.
Local Open Scope list_scope.

(** ** Exceptions *)

Inductive js_error : Type :=
| TypeError (msg : string)
| DomError (msg : string).

Inductive result (A : Type) : Type :=
| Ok (a : A)
| Throw (e : js_error).

Arguments Ok {A} a.
Arguments Throw {A} e.

Definition bind {A B : Type} (c : result A) (k : A -> result B) : result B :=
  match c with
  | Ok a => k a
  | Throw e => Throw e
  end.

Declare Scope result_scope.
Delimit Scope result_scope with result.
Notation "x <- c ;; k" := (bind c (fun x => k))
  (at level 61, c at next level, right associativity) : result_scope.

(** ** Strings *)

(** [!text] on a string. *)
Definition isEmptyString (s : string) : bool :=
  match s with
  | EmptyString => true
  | String _ _ => false
  end.

(** The class [\s] of a regular expression, which is also what [trim]
    strips: TAB, LF, VT, FF, CR, SPACE and NBSP among the first 256 code
    units. *)
Definition isWhiteSpace (c : ascii) : bool :=
  let n := nat_of_ascii c in
  ((9 <=? n) && (n <=? 13)) || (n =? 32) || (n =? 160).

Fixpoint trimStart (s : string) : string :=
  match s with
  | EmptyString => EmptyString
  | String c s' => if isWhiteSpace c then trimStart s' else s
  end.

Fixpoint trimEnd (s : string) : string :=
  match s with
  | EmptyString => EmptyString
  | String c s' =>
      let r := trimEnd s' in
      if isWhiteSpace c && isEmptyString r then EmptyString else String c r
  end.

Definition trim (s : string) : string := trimEnd (trimStart s).

(** [s.replace(/\s+/g, ' ')]: every maximal run of white space becomes one
    space; [inRun] tells that the previous character was white space. *)
Fixpoint collapseWhiteSpace (inRun : bool) (s : string) : string :=
  match s with
  | EmptyString => EmptyString
  | String c s' =>
      if isWhiteSpace c
      then if inRun then collapseWhiteSpace true s'
           else String " "%char (collapseWhiteSpace true s')
      else String c (collapseWhiteSpace false s')
  end.

(** [toLowerCase] on one code unit below 256: A-Z, and the Latin-1 capitals
    U+00C0..U+00DE except the multiplication sign U+00D7. *)
Definition lowerChar (c : ascii) : ascii :=
  let n := nat_of_ascii c in
  if ((65 <=? n) && (n <=? 90))
     || ((192 <=? n) && (n <=? 222) && negb (n =? 215))
  then ascii_of_nat (n + 32)
  else c.

Fixpoint toLowerCase (s : string) : string :=
  match s with
  | EmptyString => EmptyString
  | String c s' => String (lowerChar c) (toLowerCase s')
  end.

Definition normalize (text : string) : string :=
  toLowerCase (collapseWhiteSpace false (trim text)).

Definition areTextsEqual (text1 text2 : string) : bool :=
  String.eqb (normalize text1) (normalize text2).

(** ** The DOM, as far as the code reads it *)

Record dom_element : Type := mkElement {
  el_tagName : string;
  el_textContent : string;
  el_innerHTML : string;
  el_outerHTML : string;
  (** [querySelectorAll('tr')], and for each row the [textContent] of the
      cells [querySelectorAll('td, th')] finds in it *)
  el_rows : list (list string);
  (** the [src] property; [None] is [undefined] *)
  el_src : option string;
  (** [getAttribute('src')]; [None] is [null] *)
  el_attr_src : option string;
  (** the [alt] property; [None] is [undefined] *)
  el_alt : option string
}.

(** What a variable holding "an element" can hold at run time. *)
Inductive jsval : Type :=
| JNull
| JUndefined
| JElem (e : dom_element)
| JStr (s : string).

(** [!v] *)
Definition falsy (v : jsval) : bool :=
  match v with
  | JNull | JUndefined => true
  | JElem _ => false
  | JStr s => isEmptyString s
  end.

(** [a || b] on values that are a string or absent; the last operand of the
    chains in the code is the literal [''], so the result is a string. *)
Definition orString (a : option string) (b : string) : string :=
  match a with
  | Some s => if isEmptyString s then b else s
  | None => b
  end.

(** The inner loop of [compareTableContent] over [j]; the lists have the
    same length when it runs. *)
Fixpoint cellsEqual (cells1 cells2 : list string) : bool :=
  match cells1, cells2 with
  | c1 :: t1, c2 :: t2 =>
      let text1 := trim (orString (Some c1) "") in
      let text2 := trim (orString (Some c2) "") in
      if negb (String.eqb text1 text2) then false else cellsEqual t1 t2
  | _, _ => true
  end.

(** The outer loop over [i]. *)
Fixpoint rowsEqual (rows1 rows2 : list (list string)) : bool :=
  match rows1, rows2 with
  | cells1 :: t1, cells2 :: t2 =>
      if negb (List.length cells1 =? List.length cells2) then false
      else if negb (cellsEqual cells1 cells2) then false
      else rowsEqual t1 t2
  | _, _ => true
  end.

(** [v.querySelectorAll('tr')]: a method of elements only. *)
Definition querySelectorAll_tr (v : jsval) : result (list (list string)) :=
  match v with
  | JElem e => Ok (el_rows e)
  | JStr _ => Throw (TypeError "querySelectorAll is not a function")
  | JNull | JUndefined =>
      Throw (TypeError "Cannot read properties of null")
  end.

Local Open Scope result_scope.

Definition compareTableContent (table1 table2 : jsval) : result bool :=
  if falsy table1 || falsy table2 then Ok false
  else
    rows1 <- querySelectorAll_tr table1 ;;
    rows2 <- querySelectorAll_tr table2 ;;
    if negb (List.length rows1 =? List.length rows2) then Ok false
    else Ok (rowsEqual rows1 rows2).

(** [img.src || img.getAttribute('src') || ''] *)
Definition imageSrc (v : jsval) : result string :=
  match v with
  | JElem e => Ok (orString (el_src e) (orString (el_attr_src e) ""))
  | JStr _ => Throw (TypeError "getAttribute is not a function")
  | JNull | JUndefined =>
      Throw (TypeError "Cannot read properties of null")
  end.

(** [img.alt || ''] *)
Definition imageAlt (v : jsval) : result string :=
  match v with
  | JElem e => Ok (orString (el_alt e) "")
  | JStr _ => Ok ""
  | JNull | JUndefined =>
      Throw (TypeError "Cannot read properties of null")
  end.

Definition compareImageContent (img1 img2 : jsval) : result bool :=
  if falsy img1 || falsy img2 then Ok false
  else
    src1 <- imageSrc img1 ;;
    src2 <- imageSrc img2 ;;
    alt1 <- imageAlt img1 ;;
    alt2 <- imageAlt img2 ;;
    Ok (String.eqb src1 src2 && String.eqb alt1 alt2).

(** ** Lines, alignment decisions and annotated output *)

(** One entry of [extractDocumentLines]. *)
Record line : Type := mkLine {
  element : jsval;
  text : string;
  html : string;
  index : nat;
  tagName : string;
  isEmpty : bool;
  isTable : bool;
  isImage : bool;
  outerHTML : string
}.

Inductive decision_type : Type := match_ | addition | deletion.

(** One entry of the alignment; [None] is [null]. *)
Record decision : Type := mkDecision {
  leftIndex : option nat;
  rightIndex : option nat;
  type : decision_type
}.

Inductive highlight_tag : Type :=
| none | modified | added | removed
| empty_space_added | empty_space_removed.

(** An entry of [leftProcessed] / [rightProcessed]: either a line spread
    into a new object with a [highlight] (and maybe a [processedHtml]), or
    a placeholder object; a key an object does not have is [None]. *)
Record processed : Type := mkProcessed {
  p_element : jsval;
  p_text : string;
  p_html : string;
  p_index : option nat;
  p_tagName : string;
  p_isEmpty : bool;
  p_isTable : bool;
  p_isImage : bool;
  p_outerHTML : option string;
  highlight : highlight_tag;
  processedHtml : option string;
  placeholderText : option string
}.

(** [{ ...l, highlight: h }] and [{ ...l, highlight: h, processedHtml: ph }] *)
Definition spread (l : line) (h : highlight_tag) (ph : option string)
  : processed :=
  {| p_element := element l; p_text := text l; p_html := html l;
     p_index := Some (index l); p_tagName := tagName l;
     p_isEmpty := isEmpty l; p_isTable := isTable l; p_isImage := isImage l;
     p_outerHTML := Some (outerHTML l);
     highlight := h; processedHtml := ph; placeholderText := None |}.

(** The placeholder pushed on the side that lacks [other]. *)
Definition placeholder (h : highlight_tag) (other : line) : processed :=
  {| p_element := JNull; p_text := ""; p_html := "";
     p_index := None; p_tagName := tagName other;
     p_isEmpty := true; p_isTable := isTable other;
     p_isImage := isImage other; p_outerHTML := None;
     highlight := h; processedHtml := None;
     placeholderText := Some (text other) |}.

Record summary : Type := mkSummary {
  additions : nat;
  deletions : nat;
  changes : nat
}.

(** The block kind of the specification, read off the two flags. *)
Inductive kind : Type := Text | Table | Image.

Definition kindOf (l : line) : kind :=
  if isTable l then Table else if isImage l then Image else Text.

Definition kind_eqb (a b : kind) : bool :=
  match a, b with
  | Text, Text | Table, Table | Image, Image => true
  | _, _ => false
  end.

(** ** Numbers *)

(** [a > b] on scores. *)
Definition Qgtb (a b : Q) : bool := negb (Qle_bool a b).

Definition threshold : Q := 8 # 10.

(** [array.slice(start, stop)] for [start <= stop]. *)
Definition slice {A : Type} (l : list A) (start stop : nat) : list A :=
  firstn (stop - start) (skipn start l).

(** The code path one turn of the aligner's loop takes. *)
Inductive branch : Type :=
| DirectMatch
| LookaheadAddition
| LookaheadDeletion
| ForcedMatch
| DrainDeletion
| DrainAddition.

(** ** Vocabulary of the statements *)

(** The left (right) references of a decision list, in order. *)
Definition leftRefs (ds : list decision) : list nat :=
  flat_map (fun d => match leftIndex d with Some i => [i] | None => [] end) ds.

Definition rightRefs (ds : list decision) : list nat :=
  flat_map (fun d => match rightIndex d with Some j => [j] | None => [] end) ds.

Definition additionAt (j : nat) : decision := mkDecision None (Some j) addition.

Definition matchAt (i : nat) : decision := mkDecision (Some i) (Some i) match_.

(** The three paths behind the direct test. *)
Definition isLookaheadBranch (b : branch) : bool :=
  match b with
  | LookaheadAddition | LookaheadDeletion | ForcedMatch => true
  | _ => false
  end.

(** The value is absent: [null], or [undefined] for a missing argument. *)
Definition absent (v : jsval) : Prop := v = JNull \/ v = JUndefined.

(** A line whose [element] is a DOM element, as [extractDocumentLines]
    makes them. *)
Definition hasElement (l : line) : Prop := exists e, element l = JElem e.

(** A line is a table or an image, never both: its tag has one name. *)
Definition oneKind (l : line) : Prop := isTable l && isImage l = false.

(** The text of one side of an edit script: the spans in order, those of
    operation [skip] left out (1 for the left text, -1 for the right). *)
Definition sideText (skip : Z) (diffs : list (Z * string)) : string :=
  fold_right
    (fun diff acc => if (fst diff =? skip)%Z then acc else (snd diff ++ acc)%string)
    EmptyString diffs.

(** ** Vocabulary of the further statements *)

Definition deletionAt (i : nat) : decision := mkDecision (Some i) None deletion.

(** A decision refers to the lines its type needs, inside the two lists,
    and to no other. *)
Definition wellShaped (leftLines rightLines : list line) (d : decision) : Prop :=
  match type d, leftIndex d, rightIndex d with
  | match_, Some i, Some j =>
      i < List.length leftLines /\ j < List.length rightLines
  | addition, None, Some j => j < List.length rightLines
  | deletion, Some i, None => i < List.length leftLines
  | _, _, _ => False
  end.

(** The lines of [ls] at the indices [refs], in that order. *)
Definition linesAt (ls : list line) (refs : list nat) : list line :=
  flat_map (fun i => match nth_error ls i with Some l => [l] | None => [] end)
    refs.

(** The line an output object was spread from; a placeholder, which has
    no [index] and no [outerHTML], was spread from none. *)
Definition original (p : processed) : option line :=
  match p_index p, p_outerHTML p with
  | Some i, Some o =>
      Some (mkLine (p_element p) (p_text p) (p_html p) i (p_tagName p)
              (p_isEmpty p) (p_isTable p) (p_isImage p) o)
  | _, _ => None
  end.

Definition originals (ps : list processed) : list line :=
  flat_map (fun p => match original p with Some l => [l] | None => [] end) ps.

(** The tags the two sides of one decision can carry. *)
Definition pairedHighlights (l r : highlight_tag) : Prop :=
  match l, r with
  | none, none | modified, modified
  | empty_space_added, added | removed, empty_space_removed => True
  | _, _ => False
  end.

(** What a right tag adds to [additions], and a left tag to [deletions]. *)
Definition countsAddition (h : highlight_tag) : nat :=
  match h with added | modified => 1 | _ => 0 end.

Definition countsDeletion (h : highlight_tag) : nat :=
  match h with removed | modified => 1 | _ => 0 end.

Definition additionsOf (ps : list processed) : nat :=
  list_sum (map (fun p => countsAddition (highlight p)) ps).

Definition deletionsOf (ps : list processed) : nat :=
  list_sum (map (fun p => countsDeletion (highlight p)) ps).

(** A line whose [element] is a DOM element or is falsy: the structural
    predicates call no method of anything else. *)
Definition elementOrNull (l : line) : Prop :=
  falsy (element l) = true \/ exists e, element l = JElem e.

(** The text of the equal spans of an edit script, in order. *)
Definition equalText (diffs : list (Z * string)) : string :=
  fold_right
    (fun diff acc => if (fst diff =? 0)%Z then (snd diff ++ acc)%string else acc)
    EmptyString diffs.

(** The string is empty or starts with a character that is not white
    space. *)
Definition startsClean (s : string) : bool :=
  match s with
  | EmptyString => true
  | String c _ => negb (isWhiteSpace c)
  end.

(** The rows of a table as the predicate sees them: every cell trimmed. *)
Definition trimmedRows (e : dom_element) : list (list string) :=
  map (map trim) (el_rows e).

(** The source and the alternative text the image predicate compares. *)
Definition effectiveSrc (e : dom_element) : string :=
  orString (el_src e) (orString (el_attr_src e) "").

Definition effectiveAlt (e : dom_element) : string := orString (el_alt e) "".

(** ** A reference diff oracle

    Common prefix, then what is left of each side; on equal texts one
    equal span.  It stands in for diff-match-patch where a statement has
    to be run on concrete data. *)

Fixpoint commonPrefix (a b : string) : string * (string * string) :=
  match a, b with
  | String x a', String y b' =>
      if Ascii.eqb x y
      then let '(p, r) := commonPrefix a' b' in (String x p, r)
      else (EmptyString, (a, b))
  | _, _ => (EmptyString, (a, b))
  end.

Definition span (op : Z) (s : string) : list (Z * string) :=
  if isEmptyString s then [] else [(op, s)].

Definition prefix_diff (a b : string) : list (Z * string) :=
  let '(p, (ra, rb)) := commonPrefix a b in
  span 0%Z p ++ span (-1)%Z ra ++ span 1%Z rb.

(** ** Concrete documents *)

(** The object [extractDocumentLines] pushes for an element it keeps. *)
Definition lineOf (e : dom_element) (idx : nat) : line :=
  let tag := toLowerCase (el_tagName e) in
  let txt := trim (orString (Some (el_textContent e)) "") in
  let table := String.eqb tag "table" in
  let image := String.eqb tag "img" || String.eqb tag "figure" in
  {| element := JElem e;
     text := txt;
     html := orString (Some (el_innerHTML e)) "";
     index := idx;
     tagName := tag;
     isEmpty := isEmptyString txt && negb table && negb image;
     isTable := table;
     isImage := image;
     outerHTML := el_outerHTML e |}.

Definition pElement (t : string) : dom_element :=
  mkElement "P" t t ("<p>" ++ t ++ "</p>")%string [] None None None.

(** A table of one cell. *)
Definition tableElement (cell : string) : dom_element :=
  let inner := ("<tbody><tr><td>" ++ cell ++ "</td></tr></tbody>")%string in
  mkElement "TABLE" cell inner ("<table>" ++ inner ++ "</table>")%string
    [[cell]] None None None.

Definition imgElement (source alternative : string) : dom_element :=
  mkElement "IMG" "" "" "<img>" [] (Some source) (Some source)
    (Some alternative).

(** [performWordLevelDiff] where there is no [document]: its first DOM
    call throws. *)
Definition noDomWordDiff (leftHtml rightHtml : string)
  : result (string * string) :=
  Throw (DomError "document is not defined").

Definition tableTotal : line := lineOf (tableElement "Total") 0.

Definition paragraphTotal : line := lineOf (pElement "Total") 0.

Definition paragraphAlpha : line := lineOf (pElement "alpha") 0.

Definition paragraphXyz : line := lineOf (pElement "xyz") 1.

Definition paragraphNewLine : line := lineOf (pElement "new line") 0.

Definition paragraphSubtotal : line := lineOf (pElement "Subtotal") 0.

(** A paragraph was inserted in front of two unchanged ones. *)
Definition docLeft : list line :=
  [lineOf (pElement "alpha") 0; lineOf (pElement "beta gamma") 1].

Definition docRight : list line :=
  [paragraphNewLine; lineOf (pElement "alpha") 1;
   lineOf (pElement "beta gamma") 2].

(** A paragraph, a table and an image. *)
Definition sampleDoc : list line :=
  [paragraphAlpha; lineOf (tableElement "Total") 1;
   lineOf (imgElement "logo.png" "Logo") 2].

(** ** A reference DOM and character diff

    Stand-ins for the DOM calls and for [diffChars] where a statement has
    to be run on concrete data: text is escaped as an HTML serializer
    escapes it, plain text is the markup with its tags left out, the
    semantic clean-up changes nothing, and the character diff is the
    reference oracle's edit script. *)

Fixpoint escapeText (s : string) : string :=
  match s with
  | EmptyString => EmptyString
  | String c rest =>
      let n := nat_of_ascii c in
      let escaped :=
        if n =? 38 then "&amp;"
        else if n =? 60 then "&lt;"
        else if n =? 62 then "&gt;"
        else if n =? 160 then "&nbsp;"
        else String c EmptyString in
      (escaped ++ escapeText rest)%string
  end.

Definition referenceEscapeHtml (t : string) : result string := Ok (escapeText t).

Fixpoint stripTags (inTag : bool) (s : string) : string :=
  match s with
  | EmptyString => EmptyString
  | String c rest =>
      if inTag then stripTags (negb (nat_of_ascii c =? 62)) rest
      else if nat_of_ascii c =? 60 then stripTags true rest
      else String c (stripTags false rest)
  end.

Definition referenceExtractPlainText (html : string) : result string :=
  Ok (stripTags false html).

Definition noCleanup (diffs : list (Z * string)) : list (Z * string) := diffs.

Definition paragraphTotals : line := lineOf (pElement "Totals") 0.

Section Comparison.

(** [new diff_match_patch().diff_main(text1, text2)]: a list of
    [[op, text]] with [op] 0 for equal, 1 for insert, -1 for delete. *)
Variable diff_main : string -> string -> list (Z * string).

(** [performWordLevelDiff(leftHtml, rightHtml)], which goes through the
    DOM ([extractPlainText], [escapeHtml]) and the diff library. *)
Variable performWordLevelDiff :
  string -> string -> result (string * string).

(** *** Similarity *)

Definition unchangedLength (diffs : list (Z * string)) : nat :=
  fold_left
    (fun acc diff =>
       if (fst diff =? 0)%Z then acc + String.length (snd diff) else acc)
    diffs 0.

Definition getTextSimilarity (text1 text2 : string) : Q :=
  if isEmptyString text1 && isEmptyString text2 then 1%Q
  else if isEmptyString text1 || isEmptyString text2 then 0%Q
  else
    let diffs := diff_main text1 text2 in
    let totalLength := Nat.max (String.length text1) (String.length text2) in
    if 0 <? totalLength
    then (Z.of_nat (unchangedLength diffs) # Pos.of_nat totalLength)%Q
    else 0%Q.

(** *** Lookahead *)

Record best_match : Type := mkBest { score : Q; bestIndex : Z }.

(** [candidateLines.forEach((candidate, index) => ...)] *)
Fixpoint findBestMatch_loop (targetLine : line) (candidateLines : list line)
    (idx : nat) (best : best_match) : best_match :=
  match candidateLines with
  | [] => best
  | candidate :: rest =>
      let similarity := getTextSimilarity (text targetLine) (text candidate) in
      if Qgtb similarity (score best)
      then findBestMatch_loop targetLine rest (S idx)
             {| score := similarity; bestIndex := Z.of_nat idx |}
      else findBestMatch_loop targetLine rest (S idx) best
  end.

Definition findBestMatch (targetLine : line) (candidateLines : list line)
  : best_match :=
  findBestMatch_loop targetLine candidateLines 0
    {| score := 0%Q; bestIndex := (-1)%Z |}.

(** The scores of the candidates against the target, in order. *)
Definition candidateScores (targetLine : line) (candidateLines : list line)
  : list Q :=
  map (fun c => getTextSimilarity (text targetLine) (text c)) candidateLines.

(** What C8 says of the result [r] of the lookahead matcher, in the words
    of the specification: on a non-empty list, the first candidate with
    the highest score and that score; on the empty list, score 0 and no
    index. *)
Definition returnsFirstHighest (targetLine : line) (candidateLines : list line)
    (r : best_match) : Prop :=
  let scores := candidateScores targetLine candidateLines in
  match candidateLines with
  | [] => r = {| score := 0%Q; bestIndex := (-1)%Z |}
  | _ :: _ =>
      exists k,
        bestIndex r = Z.of_nat k /\
        nth_error scores k = Some (score r) /\
        (forall k' s', nth_error scores k' = Some s' -> (s' <= score r)%Q) /\
        (forall k' s', k' < k -> nth_error scores k' = Some s' ->
                       (s' < score r)%Q)
  end.

(** *** The aligner *)

Section Align.

Variables leftLines rightLines : list line.

(** The test of the direct match. *)
Definition directTest (leftLine rightLine : line) : bool :=
  let similarity := getTextSimilarity (text leftLine) (text rightLine) in
  Qgtb similarity threshold
  || areTextsEqual (text leftLine) (text rightLine).

(** One turn of the [while] loop at the cursors [(i, j)]: [None] when
    the loop ends, else the path taken, the decision pushed and the
    new cursors. *)
Definition align_step (i j : nat)
  : option (branch * decision * (nat * nat)) :=
  if (i <? List.length leftLines) || (j <? List.length rightLines) then
    match nth_error leftLines i, nth_error rightLines j with
    | None, None => None
    | Some leftLine, Some rightLine =>
        if directTest leftLine rightLine then
          Some (DirectMatch, mkDecision (Some i) (Some j) match_,
                (S i, S j))
        else
          let leftLookahead :=
            findBestMatch leftLine (slice rightLines (j + 1) (j + 4)) in
          let rightLookahead :=
            findBestMatch rightLine (slice leftLines (i + 1) (i + 4)) in
          if Qgtb (score leftLookahead) (score rightLookahead)
             && Qgtb (score leftLookahead) threshold then
            Some (LookaheadAddition, mkDecision None (Some j) addition,
                  (i, S j))
          else if Qgtb (score rightLookahead) threshold then
            Some (LookaheadDeletion, mkDecision (Some i) None deletion,
                  (S i, j))
          else
            Some (ForcedMatch, mkDecision (Some i) (Some j) match_,
                  (S i, S j))
    | Some _, None =>
        Some (DrainDeletion, mkDecision (Some i) None deletion, (S i, j))
    | None, Some _ =>
        Some (DrainAddition, mkDecision None (Some j) addition, (i, S j))
    end
  else None.

(** The loop; [None] only when [fuel] turns were not enough. *)
Fixpoint align_loop (fuel : nat) (i j : nat) (alignment : list decision)
  : option (list decision) :=
  match align_step i j with
  | None => Some alignment
  | Some (_, d, (i', j')) =>
      match fuel with
      | 0 => None
      | S fuel' => align_loop fuel' i' j' (alignment ++ [d])
      end
  end.

(** Every turn advances a cursor, so [length leftLines + length
    rightLines] turns are enough (lemma [align_loop_total]). *)
Definition createOptimalAlignment : list decision :=
  match align_loop (List.length leftLines + List.length rightLines) 0 0 []
  with
  | Some alignment => alignment
  | None => []
  end.

(** The turn taken at [(i, j)] pushes [d] and moves the cursors to [n]. *)
Definition emits (i j : nat) (d : decision) (n : nat * nat) : Prop :=
  exists b, align_step i j = Some (b, d, n).

End Align.

(** *** The classifier *)

(** The four accumulators of [performLineMutualComparison]. *)
Record cstate : Type := mkState {
  leftProcessed : list processed;
  rightProcessed : list processed;
  st_additions : nat;
  st_deletions : nat
}.

Definition push (st : cstate) (l r : processed) (da dd : nat) : cstate :=
  {| leftProcessed := leftProcessed st ++ [l];
     rightProcessed := rightProcessed st ++ [r];
     st_additions := st_additions st + da;
     st_deletions := st_deletions st + dd |}.

(** [i !== null ? lines[i] : null]; [None] is [null] or [undefined]. *)
Definition lineAt (lines : list line) (i : option nat) : option line :=
  match i with
  | Some k => nth_error lines k
  | None => None
  end.

Definition nullLine {A : Type} : result A :=
  Throw (TypeError "Cannot read properties of null").

(** The [match] case of the [switch]. *)
Definition classifyMatch (st : cstate) (leftLine rightLine : line)
  : result cstate :=
  if isTable leftLine && isTable rightLine then
    tablesEqual <- compareTableContent (element leftLine) (element rightLine) ;;
    if (tablesEqual : bool) then
      Ok (push st (spread leftLine none None) (spread rightLine none None) 0 0)
    else
      Ok (push st (spread leftLine modified None)
            (spread rightLine modified None) 1 1)
  else if isImage leftLine && isImage rightLine then
    imagesEqual <- compareImageContent (element leftLine) (element rightLine) ;;
    if (imagesEqual : bool) then
      Ok (push st (spread leftLine none None) (spread rightLine none None) 0 0)
    else
      Ok (push st (spread leftLine modified None)
            (spread rightLine modified None) 1 1)
  else if areTextsEqual (text leftLine) (text rightLine) then
    Ok (push st (spread leftLine none None) (spread rightLine none None) 0 0)
  else
    hl <- performWordLevelDiff (html leftLine) (html rightLine) ;;
    Ok (push st (spread leftLine modified (Some (fst hl)))
          (spread rightLine modified (Some (snd hl))) 1 1).

Section Classify.

Variables leftLines rightLines : list line.

(** The body of [alignment.forEach]. *)
Definition classify (st : cstate) (d : decision) : result cstate :=
  let leftLine := lineAt leftLines (leftIndex d) in
  let rightLine := lineAt rightLines (rightIndex d) in
  match type d with
  | match_ =>
      match leftLine, rightLine with
      | Some l, Some r => classifyMatch st l r
      | _, _ => nullLine
      end
  | addition =>
      match rightLine with
      | Some r =>
          Ok (push st (placeholder empty_space_added r)
                (spread r added None) 1 0)
      | None => nullLine
      end
  | deletion =>
      match leftLine with
      | Some l =>
          Ok (push st (spread l removed None)
                (placeholder empty_space_removed l) 0 1)
      | None => nullLine
      end
  end.

Fixpoint classifyAll (st : cstate) (alignment : list decision)
  : result cstate :=
  match alignment with
  | [] => Ok st
  | d :: rest => st' <- classify st d ;; classifyAll st' rest
  end.

Definition performLineMutualComparison
  : result (list processed * list processed * summary) :=
  let alignment := createOptimalAlignment leftLines rightLines in
  st <- classifyAll (mkState [] [] 0 0) alignment ;;
  Ok (leftProcessed st, rightProcessed st,
      {| additions := st_additions st;
         deletions := st_deletions st;
         changes := st_additions st + st_deletions st |}).

End Classify.

(** *** The entry point *)

Record diff_entry : Type := mkEntry { entry_type : string; content : string }.

Record report_line : Type := mkReportLine {
  v1 : string; v2 : string; status : string;
  diffHtml : string; formatChanges : list string
}.

Record detailed_report : Type := mkReport {
  lines : list report_line;
  tables : list unit;
  images : list unit
}.

Record comparison : Type := mkComparison {
  leftDiffs : list diff_entry;
  rightDiffs : list diff_entry;
  cmp_summary : summary;
  detailed : detailed_report
}.

(** How a promise ends. *)
Inductive settlement (A : Type) : Type :=
| Resolved (v : A)
| Rejected (e : js_error).

Arguments Resolved {A} v.
Arguments Rejected {A} e.

(** The object of the identical-documents path and of the [catch]. *)
Definition unchangedResult (leftHtml rightHtml : string) : comparison :=
  {| leftDiffs := [mkEntry "equal" leftHtml];
     rightDiffs := [mkEntry "equal" rightHtml];
     cmp_summary := mkSummary 0 0 0;
     detailed := mkReport [] [] [] |}.

Section EntryPoint.

(** The DOM side of the pipeline. *)
Variable div : Type.
Variable extractPlainText : string -> result string.
Variable htmlToDiv : string -> result div.
Variable extractDocumentLines : div -> result (list line).
Variable applyProcessedLinesToDiv : div -> list processed -> result div.
Variable innerHTML : div -> string.
Variable generateSimpleDetailedReport :
  list line -> list line -> detailed_report.

Definition performMutualComparison (leftHtml rightHtml : string)
  : result comparison :=
  leftDiv <- htmlToDiv leftHtml ;;
  rightDiv <- htmlToDiv rightHtml ;;
  leftLines <- extractDocumentLines leftDiv ;;
  rightLines <- extractDocumentLines rightDiv ;;
  out <- performLineMutualComparison leftLines rightLines ;;
  let '(leftP, rightP, summary) := out in
  leftDiv' <- applyProcessedLinesToDiv leftDiv leftP ;;
  rightDiv' <- applyProcessedLinesToDiv rightDiv rightP ;;
  let detailed := generateSimpleDetailedReport leftLines rightLines in
  Ok {| leftDiffs := [mkEntry "equal" (innerHTML leftDiv')];
        rightDiffs := [mkEntry "equal" (innerHTML rightDiv')];
        cmp_summary := summary;
        detailed := detailed |}.

(** The [try] block of the timer callback; [Ok v] is [resolve(v)]. *)
Definition tryBlock (leftHtml rightHtml : string) : result comparison :=
  leftText <- extractPlainText leftHtml ;;
  rightText <- extractPlainText rightHtml ;;
  if String.eqb (trim leftText) (trim rightText)
  then Ok (unchangedResult leftHtml rightHtml)
  else performMutualComparison leftHtml rightHtml.

(** The promise: the executor only arms the timer, the callback is the
    [try] block with its [catch]. *)
Definition compareHtmlDocuments (leftHtml rightHtml : string)
  : settlement comparison :=
  match tryBlock leftHtml rightHtml with
  | Ok v => Resolved v
  | Throw _ => Resolved (unchangedResult leftHtml rightHtml)
  end.

End EntryPoint.

(** *** The character-level comparison *)

(** One part of the [diffChars] of the diff library: [added] and
    [removed] are [true] or absent, which [false] stands for. *)
Record change : Type := mkChange {
  ch_added : bool;
  ch_removed : bool;
  ch_value : string
}.

(** What [compareDocuments] returns. *)
Record text_comparison : Type := mkTextComparison {
  tc_leftDiffs : list diff_entry;
  tc_rightDiffs : list diff_entry;
  tc_summary : summary
}.

(** The body of [diffs.forEach] in [compareDocuments], on the two lists
    and the two counters. *)
Definition compareDocuments_step
    (acc : list diff_entry * list diff_entry * nat * nat) (diff : change)
  : list diff_entry * list diff_entry * nat * nat :=
  let '(leftD, rightD, adds, dels) := acc in
  if ch_added diff then
    (leftD, rightD ++ [mkEntry "insert" (ch_value diff)], adds + 1, dels)
  else if ch_removed diff then
    (leftD ++ [mkEntry "delete" (ch_value diff)], rightD, adds, dels + 1)
  else
    (leftD ++ [mkEntry "equal" (ch_value diff)],
     rightD ++ [mkEntry "equal" (ch_value diff)], adds, dels).

Section CharDiff.

(** [diffChars(leftText, rightText)] of the diff library. *)
Variable diffChars : string -> string -> list change.

Definition compareDocuments (leftText rightText : string) : text_comparison :=
  let diffs := diffChars leftText rightText in
  let '(leftD, rightD, adds, dels) :=
    fold_left compareDocuments_step diffs ([], [], 0, 0) in
  {| tc_leftDiffs := leftD;
     tc_rightDiffs := rightD;
     tc_summary :=
       {| additions := adds; deletions := dels; changes := adds + dels |} |}.

End CharDiff.

(** [diffs.map((d) => d.content).join("")] *)
Definition renderHtmlDifferences (diffs : list diff_entry) : string :=
  String.concat "" (map content diffs).

(** The text the parts of a character diff spell for the left side (the
    parts not added) and for the right side (the parts not removed). *)
Definition leftOfChanges (diffs : list change) : string :=
  String.concat "" (map ch_value (filter (fun c => negb (ch_added c)) diffs)).

Definition rightOfChanges (diffs : list change) : string :=
  String.concat "" (map ch_value (filter (fun c => negb (ch_removed c)) diffs)).

(** The entries of a list that have the given type. *)
Definition entriesOfType (t : string) (diffs : list diff_entry) : list diff_entry :=
  filter (fun d => String.eqb (entry_type d) t) diffs.

(** *** Rendering: the word-level diff and the detailed report *)

(** The double quote, as a one-character string. *)
Definition dquote : string := String (ascii_of_nat 34) EmptyString.

(** [<span class="cls">body</span>] *)
Definition spanOf (cls body : string) : string :=
  ("<span class=" ++ dquote ++ cls ++ dquote ++ ">" ++ body ++ "</span>")%string.

(** The inline placeholder of [applyDiffHighlighting], [style] being the
    text of its style attribute and [sign] the character after the
    bracket. *)
Definition inlinePlaceholder (style sign body : string) : string :=
  ("<span class=" ++ dquote ++ "git-inline-placeholder" ++ dquote
   ++ " style=" ++ dquote ++ style ++ dquote ++ ">[" ++ sign ++ body
   ++ "]</span>")%string.

Definition addedStyle : string :=
  "background: rgba(34, 197, 94, 0.1); color: #22c55e; font-style: italic; padding: 1px 3px; border-radius: 2px; font-size: 0.9em;".

Definition removedStyle : string :=
  "background: rgba(239, 68, 68, 0.1); color: #ef4444; font-style: italic; padding: 1px 3px; border-radius: 2px; font-size: 0.9em;".

(** [text.length > n ? '...' : ''] *)
Definition ellipsisAfter (n : nat) (t : string) : string :=
  if n <? String.length t then "..." else "".

Inductive side : Type := LeftSide | RightSide.

(** [String(i)] for a natural number. *)
Definition decimal (i : nat) : string := NilZero.string_of_uint (Nat.to_uint i).

(** [array.map(f)] with an [f] that can throw. *)
Fixpoint mapResult {A B : Type} (f : A -> result B) (l : list A)
  : result (list B) :=
  match l with
  | [] => Ok []
  | x :: rest =>
      y <- f x ;;
      ys <- mapResult f rest ;;
      Ok (y :: ys)
  end.

Section Rendering.

(** [escapeHtml] and [extractPlainText] go through the DOM;
    [diff_cleanupSemantic] is the diff library's, which rewrites the list
    it is given. *)
Variable escapeHtml : string -> result string.
Variable extractPlainText : string -> result string.
Variable diff_cleanupSemantic : list (Z * string) -> list (Z * string).

(** The body of [diffs.forEach] in [applyDiffHighlighting]: what one span
    appends to [result]. *)
Definition highlightSpan (s : side) (diff : Z * string) : result string :=
  let '(operation, t) := diff in
  if (operation =? 0)%Z then escapeHtml t
  else if (operation =? 1)%Z then
    match s with
    | RightSide => e <- escapeHtml t ;; Ok (spanOf "git-inline-added" e)
    | LeftSide =>
        e <- escapeHtml (substring 0 20 t) ;;
        Ok (inlinePlaceholder addedStyle "+" (e ++ ellipsisAfter 20 t)%string)
    end
  else if (operation =? -1)%Z then
    match s with
    | LeftSide => e <- escapeHtml t ;; Ok (spanOf "git-inline-removed" e)
    | RightSide =>
        e <- escapeHtml (substring 0 20 t) ;;
        Ok (inlinePlaceholder removedStyle "-" (e ++ ellipsisAfter 20 t)%string)
    end
  else Ok "".

Fixpoint applyDiffHighlighting_loop (diffs : list (Z * string)) (s : side)
    (acc : string) : result string :=
  match diffs with
  | [] => Ok acc
  | diff :: rest =>
      piece <- highlightSpan s diff ;;
      applyDiffHighlighting_loop rest s (acc ++ piece)%string
  end.

Definition applyDiffHighlighting (diffs : list (Z * string)) (s : side)
  : result string :=
  applyDiffHighlighting_loop diffs s "".

(** The body of [performWordLevelDiff], which the comparison takes as its
    variable of that name. *)
Definition wordLevelDiff (leftHtml rightHtml : string)
  : result (string * string) :=
  leftText <- extractPlainText leftHtml ;;
  rightText <- extractPlainText rightHtml ;;
  let diffs := diff_cleanupSemantic (diff_main leftText rightText) in
  leftHighlighted <- applyDiffHighlighting diffs LeftSide ;;
  rightHighlighted <- applyDiffHighlighting diffs RightSide ;;
  Ok (leftHighlighted, rightHighlighted).

Definition createInlineDiff (leftText rightText : string) : result string :=
  let diffs :=
    diff_cleanupSemantic
      (diff_main (orString (Some leftText) "") (orString (Some rightText) "")) in
  pieces <-
    mapResult
      (fun diff : Z * string =>
         escaped <- escapeHtml (snd diff) ;;
         if (fst diff =? 1)%Z then Ok (spanOf "git-inline-added" escaped)
         else if (fst diff =? -1)%Z then Ok (spanOf "git-inline-removed" escaped)
         else Ok escaped)
      diffs ;;
  Ok (String.concat "" pieces).

(** The body of the [for] loop of [generateSimpleDetailedReport] at [i]:
    the line it pushes, if any. *)
Definition reportLineAt (leftLines rightLines : list line) (i : nat)
  : result (list report_line) :=
  match nth_error leftLines i, nth_error rightLines i with
  | Some leftLine, Some rightLine =>
      if areTextsEqual (text leftLine) (text rightLine) then
        h <- escapeHtml (text leftLine) ;;
        Ok [mkReportLine (decimal (i + 1)) (decimal (i + 1)) "UNCHANGED" h []]
      else
        h <- createInlineDiff (text leftLine) (text rightLine) ;;
        Ok [mkReportLine (decimal (i + 1)) (decimal (i + 1)) "MODIFIED" h
              ["Content modified"]]
  | Some leftLine, None =>
      h <- escapeHtml (text leftLine) ;;
      Ok [mkReportLine (decimal (i + 1)) "" "REMOVED"
            (spanOf "git-inline-removed" h) ["Line removed"]]
  | None, Some rightLine =>
      h <- escapeHtml (text rightLine) ;;
      Ok [mkReportLine "" (decimal (i + 1)) "ADDED"
            (spanOf "git-inline-added" h) ["Line added"]]
  | None, None => Ok []
  end.

(** The loop from [i], with [count] turns to go. *)
Fixpoint reportLoop (leftLines rightLines : list line) (count i : nat)
    (lines : list report_line) : result (list report_line) :=
  match count with
  | 0 => Ok lines
  | S count' =>
      pushed <- reportLineAt leftLines rightLines i ;;
      reportLoop leftLines rightLines count' (S i) (lines ++ pushed)
  end.

(** The [try] block returns the lines; the [catch] an empty report. *)
Definition generateSimpleDetailedReport (leftLines rightLines : list line)
  : detailed_report :=
  let maxLines := Nat.max (List.length leftLines) (List.length rightLines) in
  match reportLoop leftLines rightLines maxLines 0 [] with
  | Ok lines => mkReport lines [] []
  | Throw _ => mkReport [] [] []
  end.

End Rendering.

(** The status the report gives position [i]. *)
Definition statusAt (leftLines rightLines : list line) (i : nat) : string :=
  match nth_error leftLines i, nth_error rightLines i with
  | Some l, Some r =>
      if areTextsEqual (text l) (text r) then "UNCHANGED" else "MODIFIED"
  | Some _, None => "REMOVED"
  | None, Some _ => "ADDED"
  | None, None => ""
  end.

(** The statuses of the report, position by position. *)
Definition positionalStatuses (leftLines rightLines : list line) : list string :=
  map (statusAt leftLines rightLines)
    (seq 0 (Nat.max (List.length leftLines) (List.length rightLines))).

(** The reference oracle's edit script as parts of a character diff. *)
Definition prefix_changes (a b : string) : list change :=
  map (fun d : Z * string =>
         mkChange (fst d =? 1)%Z (fst d =? -1)%Z (snd d))
    (prefix_diff a b).

(** *** The positional variant of the comparison

    The second [performLineMutualComparison] of the file pairs the lines
    by position instead of aligning them, and its placeholders carry the
    element of the line they stand for. *)

(** An output object of the variant: the keys of [processed], and the key
    [originalElement] where the object has it. *)
Record processed_positional : Type := mkPositional {
  body : processed;
  originalElement : option jsval
}.

(** [{ ...l, highlight: h }], with or without [processedHtml]. *)
Definition spread_positional (l : line) (h : highlight_tag) (ph : option string)
  : processed_positional :=
  mkPositional (spread l h ph) None.

Definition placeholder_positional (h : highlight_tag) (other : line)
  : processed_positional :=
  mkPositional (placeholder h other) (Some (element other)).

Record pstate : Type := mkPState {
  leftProcessedP : list processed_positional;
  rightProcessedP : list processed_positional;
  additionsP : nat;
  deletionsP : nat
}.

Definition pushP (st : pstate) (l r : processed_positional) (da dd : nat)
  : pstate :=
  {| leftProcessedP := leftProcessedP st ++ [l];
     rightProcessedP := rightProcessedP st ++ [r];
     additionsP := additionsP st + da;
     deletionsP := deletionsP st + dd |}.

(** The branch of the loop where both lines exist. *)
Definition classifyPair_positional (st : pstate) (leftLine rightLine : line)
  : result pstate :=
  if isTable leftLine && isTable rightLine then
    tablesEqual <- compareTableContent (element leftLine) (element rightLine) ;;
    if (tablesEqual : bool) then
      Ok (pushP st (spread_positional leftLine none None)
            (spread_positional rightLine none None) 0 0)
    else
      Ok (pushP st (spread_positional leftLine modified None)
            (spread_positional rightLine modified None) 1 1)
  else if isImage leftLine && isImage rightLine then
    imagesEqual <- compareImageContent (element leftLine) (element rightLine) ;;
    if (imagesEqual : bool) then
      Ok (pushP st (spread_positional leftLine none None)
            (spread_positional rightLine none None) 0 0)
    else
      Ok (pushP st (spread_positional leftLine modified None)
            (spread_positional rightLine modified None) 1 1)
  else if areTextsEqual (text leftLine) (text rightLine) then
    Ok (pushP st (spread_positional leftLine none None)
          (spread_positional rightLine none None) 0 0)
  else
    hl <- performWordLevelDiff (html leftLine) (html rightLine) ;;
    Ok (pushP st (spread_positional leftLine modified (Some (fst hl)))
          (spread_positional rightLine modified (Some (snd hl))) 1 1).

(** The body of the [for] loop at [i]. *)
Definition positional_step (leftLines rightLines : list line) (st : pstate)
    (i : nat) : result pstate :=
  match nth_error leftLines i, nth_error rightLines i with
  | Some leftLine, Some rightLine =>
      classifyPair_positional st leftLine rightLine
  | Some leftLine, None =>
      Ok (pushP st (spread_positional leftLine removed None)
            (placeholder_positional empty_space_removed leftLine) 0 1)
  | None, Some rightLine =>
      Ok (pushP st (placeholder_positional empty_space_added rightLine)
            (spread_positional rightLine added None) 1 0)
  | None, None => Ok st
  end.

(** The loop from [i], with [count] turns to go. *)
Fixpoint positional_loop (leftLines rightLines : list line) (count i : nat)
    (st : pstate) : result pstate :=
  match count with
  | 0 => Ok st
  | S count' =>
      st' <- positional_step leftLines rightLines st i ;;
      positional_loop leftLines rightLines count' (S i) st'
  end.

Definition performLineMutualComparison_positional
    (leftLines rightLines : list line)
  : result (list processed_positional * list processed_positional * summary) :=
  let maxLength := Nat.max (List.length leftLines) (List.length rightLines) in
  st <- positional_loop leftLines rightLines maxLength 0 (mkPState [] [] 0 0) ;;
  Ok (leftProcessedP st, rightProcessedP st,
      {| additions := additionsP st;
         deletions := deletionsP st;
         changes := additionsP st + deletionsP st |}).

(** The alignment the positional variant amounts to: position [i] of the
    one list against position [i] of the other, the first lines being at
    position [i]. *)
Fixpoint positionalAlignment (i : nat) (leftLines rightLines : list line)
  : list decision :=
  match leftLines with
  | _ :: l =>
      match rightLines with
      | _ :: r => matchAt i :: positionalAlignment (S i) l r
      | [] => deletionAt i :: positionalAlignment (S i) l []
      end
  | [] => map additionAt (seq i (List.length rightLines))
  end.

(** An accumulator of the variant, and its result, without the
    [originalElement] keys. *)
Definition withoutOriginal (st : pstate) : cstate :=
  {| leftProcessed := map body (leftProcessedP st);
     rightProcessed := map body (rightProcessedP st);
     st_additions := additionsP st;
     st_deletions := deletionsP st |}.

Definition resultWithoutOriginal
    (out : result (list processed_positional * list processed_positional * summary))
  : result (list processed * list processed * summary) :=
  match out with
  | Ok (lp, rp, s) => Ok (map body lp, map body rp, s)
  | Throw e => Throw e
  end.

Definition stateWithoutOriginal (r : result pstate) : result cstate :=
  match r with
  | Ok st => Ok (withoutOriginal st)
  | Throw e => Throw e
  end.

(** *** Vocabulary of the further statements *)

(** What one successful turn of the classifier adds to the accumulators. *)
Definition stepOutcome (leftLines rightLines : list line) (d : decision)
    (st st' : cstate) (p q : processed) : Prop :=
  leftProcessed st' = leftProcessed st ++ [p] /\
  rightProcessed st' = rightProcessed st ++ [q] /\
  originals [p] = linesAt leftLines (leftRefs [d]) /\
  originals [q] = linesAt rightLines (rightRefs [d]) /\
  pairedHighlights (highlight p) (highlight q) /\
  st_additions st' = st_additions st + countsAddition (highlight q) /\
  st_deletions st' = st_deletions st + countsDeletion (highlight p) /\
  countsAddition (highlight q) + List.length (leftRefs [d])
  = countsDeletion (highlight p) + List.length (rightRefs [d]).

(** What a successful run of the classifier over well-shaped decisions
    adds to the accumulators. *)
Definition runOutcome (leftLines rightLines : list line) (ds : list decision)
    (st st' : cstate) (ps qs : list processed) : Prop :=
  leftProcessed st' = leftProcessed st ++ ps /\
  rightProcessed st' = rightProcessed st ++ qs /\
  List.length ps = List.length ds /\
  List.length qs = List.length ds /\
  originals ps = linesAt leftLines (leftRefs ds) /\
  originals qs = linesAt rightLines (rightRefs ds) /\
  Forall2 (fun p q => pairedHighlights (highlight p) (highlight q)) ps qs /\
  st_additions st' = st_additions st + additionsOf qs /\
  st_deletions st' = st_deletions st + deletionsOf ps /\
  additionsOf qs + List.length (leftRefs ds)
  = deletionsOf ps + List.length (rightRefs ds).

(** The entries one part of the diff puts on the left and on the right. *)
Definition leftEntry (c : change) : list diff_entry :=
  if ch_added c then []
  else if ch_removed c then [mkEntry "delete" (ch_value c)]
  else [mkEntry "equal" (ch_value c)].

Definition rightEntry (c : change) : list diff_entry :=
  if ch_added c then [mkEntry "insert" (ch_value c)]
  else if ch_removed c then []
  else [mkEntry "equal" (ch_value c)].

(** What the report says of position [i] in the line [ln]. *)
Definition reportedAt (leftLines rightLines : list line) (i : nat)
    (ln : report_line) : Prop :=
  status ln = statusAt leftLines rightLines i /\
  v1 ln = (if i <? List.length leftLines then decimal (i + 1) else "") /\
  v2 ln = (if i <? List.length rightLines then decimal (i + 1) else "").

(** ** Properties of the aligner *)

Lemma Qgtb_true_iff (a b : Q) : Qgtb a b = true <-> (b < a)%Q.
Proof.
  unfold Qgtb. rewrite negb_true_iff. split; intros H.
  - apply Qnot_le_lt. intros Hle. apply Qle_bool_iff in Hle. congruence.
  - destruct (Qle_bool a b) eqn:E; [|reflexivity].
    apply Qle_bool_iff in E. exfalso. exact (Qlt_not_le _ _ H E).
Qed.

Lemma Qgtb_false_iff (a b : Q) : Qgtb a b = false <-> ~ (b < a)%Q.
Proof.
  rewrite <- Qgtb_true_iff. destruct (Qgtb a b); split; intros H;
    congruence || (exfalso; apply H; reflexivity) || discriminate.
Qed.

Section AlignProperties.

Variables leftLines rightLines : list line.

Local Abbreviation step := (align_step leftLines rightLines).
Local Abbreviation loop := (align_loop leftLines rightLines).

Lemma align_step_None (i j : nat) :
  step i j = None ->
  List.length leftLines <= i /\ List.length rightLines <= j.
Proof.
  unfold align_step.
  destruct (i <? List.length leftLines) eqn:Ei;
    destruct (j <? List.length rightLines) eqn:Ej; simpl.
  all: try (apply Nat.ltb_lt in Ei); try (apply Nat.ltb_lt in Ej).
  all: try (apply Nat.ltb_ge in Ei); try (apply Nat.ltb_ge in Ej).
  4: { intros _. split; assumption. }
  all: destruct (nth_error leftLines i) as [l|] eqn:Hl;
    destruct (nth_error rightLines j) as [r|] eqn:Hr;
    try discriminate.
  all: try (apply nth_error_None in Hl); try (apply nth_error_None in Hr);
    try lia.
  all: destruct (directTest l r); try discriminate;
    destruct (_ && _); try discriminate;
    destruct (Qgtb _ _); discriminate.
Qed.

(** What one turn does to the cursors and to the references. *)
Lemma align_step_Some (i j : nat) b d i' j' :
  i <= List.length leftLines -> j <= List.length rightLines ->
  step i j = Some (b, d, (i', j')) ->
  leftRefs [d] = seq i (i' - i) /\ rightRefs [d] = seq j (j' - j) /\
  i <= i' <= List.length leftLines /\ j <= j' <= List.length rightLines /\
  i + j < i' + j'.
Proof.
  intros Hi Hj. unfold align_step.
  destruct ((i <? List.length leftLines) || (j <? List.length rightLines));
    [|discriminate].
  destruct (nth_error leftLines i) as [l|] eqn:Hl;
    destruct (nth_error rightLines j) as [r|] eqn:Hr; try discriminate.
  all: try (assert (i < List.length leftLines)
              by (apply nth_error_Some; congruence)).
  all: try (assert (j < List.length rightLines)
              by (apply nth_error_Some; congruence)).
  all: repeat match goal with
         | |- context [if ?c then _ else _] => destruct c
         end.
  all: intros [= <- <- <- <-]; unfold leftRefs, rightRefs;
    cbn [flat_map leftIndex rightIndex app].
  all: try (apply nth_error_None in Hl); try (apply nth_error_None in Hr).
  all: rewrite ?Nat.sub_diag;
    replace (S i - i) with 1 by lia; replace (S j - j) with 1 by lia;
    cbn [seq]; repeat split; lia.
Qed.

Lemma leftRefs_app (a b : list decision) :
  leftRefs (a ++ b) = leftRefs a ++ leftRefs b.
Proof. unfold leftRefs. apply flat_map_app. Qed.

Lemma rightRefs_app (a b : list decision) :
  rightRefs (a ++ b) = rightRefs a ++ rightRefs b.
Proof. unfold rightRefs. apply flat_map_app. Qed.

Lemma seq_split_at (a k n : nat) :
  k <= n -> seq a k ++ seq (a + k) (n - k) = seq a n.
Proof.
  intros H. rewrite <- seq_app. f_equal. lia.
Qed.

(** With fuel for the blocks that remain, the loop ends, and what it
    pushes refers to exactly the remaining blocks of each side. *)
Lemma align_loop_covers (fuel : nat) :
  forall i j acc,
    i <= List.length leftLines -> j <= List.length rightLines ->
    (List.length leftLines - i) + (List.length rightLines - j) <= fuel ->
    exists ds,
      loop fuel i j acc = Some (acc ++ ds) /\
      leftRefs ds = seq i (List.length leftLines - i) /\
      rightRefs ds = seq j (List.length rightLines - j).
Proof.
  induction fuel as [|fuel IH]; intros i j acc Hi Hj Hfuel.
  - exists []. cbn.
    destruct (align_step leftLines rightLines i j) as [[[b d] [i' j']]|] eqn:E.
    + apply align_step_Some in E; lia.
    + rewrite app_nil_r.
      replace (List.length leftLines - i) with 0 by lia.
      replace (List.length rightLines - j) with 0 by lia.
      repeat split; reflexivity.
  - cbn.
    destruct (align_step leftLines rightLines i j) as [[[b d] [i' j']]|] eqn:E.
    + pose proof (align_step_Some _ _ _ _ _ _ Hi Hj E)
        as (Hl & Hr & Hi' & Hj' & Hprog).
      destruct (IH i' j' (acc ++ [d])) as (ds & Hloop & Hls & Hrs);
        try lia.
      exists (d :: ds). split; [|split].
      * rewrite Hloop. rewrite <- app_assoc. reflexivity.
      * change (d :: ds) with ([d] ++ ds).
        rewrite leftRefs_app, Hl, Hls.
        replace i' with (i + (i' - i)) at 2 by lia.
        replace (List.length leftLines - i')
          with ((List.length leftLines - i) - (i' - i)) by lia.
        apply seq_split_at. lia.
      * change (d :: ds) with ([d] ++ ds).
        rewrite rightRefs_app, Hr, Hrs.
        replace j' with (j + (j' - j)) at 2 by lia.
        replace (List.length rightLines - j')
          with ((List.length rightLines - j) - (j' - j)) by lia.
        apply seq_split_at. lia.
    + apply align_step_None in E. exists [].
      rewrite app_nil_r.
      replace (List.length leftLines - i) with 0 by lia.
      replace (List.length rightLines - j) with 0 by lia.
      repeat split; reflexivity.
Qed.

(** The fuel of [createOptimalAlignment] is never used up. *)
Lemma align_loop_total :
  loop (List.length leftLines + List.length rightLines) 0 0 []
  = Some (createOptimalAlignment leftLines rightLines).
Proof.
  destruct (align_loop_covers
              (List.length leftLines + List.length rightLines) 0 0 [])
    as (ds & H & _); try lia.
  unfold createOptimalAlignment. rewrite H. reflexivity.
Qed.

(** C1. The decision list covers both inputs exactly: its left
    references, read in order, are the indices 0 .. length-1 of the
    left list, each once, and its right references are those of the
    right list; the loop ends within its bound of turns. *)
Theorem alignment_covers_both_sides :
  loop (List.length leftLines + List.length rightLines) 0 0 []
  = Some (createOptimalAlignment leftLines rightLines) /\
  leftRefs (createOptimalAlignment leftLines rightLines)
  = seq 0 (List.length leftLines) /\
  rightRefs (createOptimalAlignment leftLines rightLines)
  = seq 0 (List.length rightLines).
Proof.
  split; [apply align_loop_total|].
  destruct (align_loop_covers
              (List.length leftLines + List.length rightLines) 0 0 [])
    as (ds & H & Hl & Hr); try lia.
  unfold createOptimalAlignment. rewrite H. cbn [app].
  rewrite Hl, Hr, !Nat.sub_0_r. split; reflexivity.
Qed.

(** The window [lines.slice(k + 1, k + 4)] holds the next three lines
    after [k], as far as they exist. *)
Lemma slice_next_three (ls : list line) (k n : nat) :
  nth_error (slice ls (k + 1) (k + 4)) n
  = if n <? 3 then nth_error ls (k + 1 + n) else None.
Proof.
  unfold slice. replace (k + 4 - (k + 1)) with 3 by lia.
  rewrite nth_error_firstn.
  destruct (n <? 3); [apply nth_error_skipn | reflexivity].
Qed.

Lemma both_current (i j : nat) (L R : line) :
  nth_error leftLines i = Some L -> nth_error rightLines j = Some R ->
  (i <? List.length leftLines) || (j <? List.length rightLines) = true.
Proof.
  intros HL _. apply orb_true_iff. left. apply Nat.ltb_lt.
  apply nth_error_Some. congruence.
Qed.

(** C3. With a current block on both sides and the direct test failed,
    the left block is scored against the next three right blocks and
    the right block against the next three left blocks; an insertion
    of the right block alone is emitted exactly when the left-ahead
    score is above both the right-ahead score and 0.8; failing that, a
    deletion of the left block alone exactly when the right-ahead
    score is above 0.8; failing that, a match of both blocks. *)
Theorem lookahead_decides_the_turn (i j : nat) (L R : line) :
  nth_error leftLines i = Some L ->
  nth_error rightLines j = Some R ->
  directTest L R = false ->
  let rightWindow := slice rightLines (j + 1) (j + 4) in
  let leftWindow := slice leftLines (i + 1) (i + 4) in
  let leftAhead := score (findBestMatch L rightWindow) in
  let rightAhead := score (findBestMatch R leftWindow) in
  let insertion := ((rightAhead < leftAhead)%Q /\ (threshold < leftAhead)%Q) in
  (forall n, nth_error rightWindow n
             = if n <? 3 then nth_error rightLines (j + 1 + n) else None) /\
  (forall n, nth_error leftWindow n
             = if n <? 3 then nth_error leftLines (i + 1 + n) else None) /\
  (emits leftLines rightLines i j (mkDecision None (Some j) addition) (i, S j) <-> insertion) /\
  (emits leftLines rightLines i j (mkDecision (Some i) None deletion) (S i, j)
   <-> ~ insertion /\ (threshold < rightAhead)%Q) /\
  (emits leftLines rightLines i j (mkDecision (Some i) (Some j) match_) (S i, S j)
   <-> ~ insertion /\ ~ (threshold < rightAhead)%Q).
Proof.
  intros HL HR Hdirect rightWindow leftWindow leftAhead rightAhead insertion.
  split; [intros n; apply slice_next_three|].
  split; [intros n; apply slice_next_three|].
  assert (Hins : Qgtb leftAhead rightAhead && Qgtb leftAhead threshold = true
                 <-> insertion).
  { rewrite andb_true_iff, !Qgtb_true_iff. reflexivity. }
  pose proof (Qgtb_true_iff rightAhead threshold) as Hdel.
  unfold emits, align_step.
  rewrite (both_current i j L R HL HR), HL, HR, Hdirect.
  fold rightWindow leftWindow. fold leftAhead rightAhead.
  assert (Hnins : Qgtb leftAhead rightAhead && Qgtb leftAhead threshold = false
                  -> ~ insertion).
  { intros E Hc. apply Hins in Hc. congruence. }
  assert (Hndel : Qgtb rightAhead threshold = false
                  -> ~ (threshold < rightAhead)%Q).
  { intros E Hc. apply Hdel in Hc. congruence. }
  destruct (Qgtb leftAhead rightAhead && Qgtb leftAhead threshold);
    [|destruct (Qgtb rightAhead threshold)].
  all: try (assert insertion by (apply Hins; reflexivity)).
  all: try (assert (~ insertion) by (apply Hnins; reflexivity)).
  all: try (assert (threshold < rightAhead)%Q by (apply Hdel; reflexivity)).
  all: try (assert (~ (threshold < rightAhead)%Q)
              by (apply Hndel; reflexivity)).
  all: split; [|split].
  all: (split;
        [ intros [b Hb]; try discriminate Hb; tauto
        | intros Hx; try tauto; eexists; reflexivity ]).
Qed.

(** C4. With a current block on both sides, the direct match is taken
    exactly when the normalized texts are equal or the similarity is
    above 0.8, and it consumes both blocks; at a similarity of exactly
    0.8 with different normalized texts the turn goes through the
    lookahead instead. *)
Theorem direct_match_threshold (i j : nat) (L R : line) :
  nth_error leftLines i = Some L ->
  nth_error rightLines j = Some R ->
  let similarity := getTextSimilarity (text L) (text R) in
  let direct := (normalize (text L) = normalize (text R)
                 \/ (threshold < similarity)%Q) in
  (exists b d n, step i j = Some (b, d, n) /\
     (b = DirectMatch <-> direct) /\
     (b = DirectMatch ->
        d = mkDecision (Some i) (Some j) match_ /\ n = (S i, S j)) /\
     (b <> DirectMatch -> isLookaheadBranch b = true)) /\
  ((similarity == threshold)%Q ->
   normalize (text L) <> normalize (text R) ->
   exists b d n, step i j = Some (b, d, n) /\ isLookaheadBranch b = true).
Proof.
  intros HL HR similarity direct.
  assert (Hd : directTest L R = true <-> direct).
  { unfold directTest, direct, areTextsEqual.
    rewrite orb_true_iff, Qgtb_true_iff, String.eqb_eq. tauto. }
  assert (Hstep : exists b d n, step i j = Some (b, d, n) /\
     (b = DirectMatch <-> direct) /\
     (b = DirectMatch ->
        d = mkDecision (Some i) (Some j) match_ /\ n = (S i, S j)) /\
     (b <> DirectMatch -> isLookaheadBranch b = true)).
  { unfold align_step.
    rewrite (both_current i j L R HL HR), HL, HR.
    destruct (directTest L R) eqn:E.
    - assert direct by (apply Hd; reflexivity).
      do 3 eexists. split; [reflexivity|].
      split; [tauto|]. split; [intros _; split; reflexivity|].
      intros Hc. contradiction.
    - assert (~ direct) by (intros Hc; apply Hd in Hc; discriminate).
      destruct (_ && _); [|destruct (Qgtb _ _)];
        (do 3 eexists; split; [reflexivity|]);
        (split; [split; [discriminate | tauto]|]);
        (split; [discriminate | reflexivity]). }
  split; [exact Hstep|].
  intros Heq Hne.
  destruct Hstep as (b & d & n & Hs & Hiff & _ & Hla).
  exists b, d, n. split; [exact Hs|]. apply Hla. intros Hb.
  apply Hiff in Hb. destruct Hb as [Hb|Hb]; [contradiction|].
  rewrite Heq in Hb. exact (Qlt_irrefl _ Hb).
Qed.

End AlignProperties.

(** ** Properties of the lookahead matcher *)

(** The loop keeps the first candidate whose score is above the score it
    started with and above every earlier one, and at least every later
    one; with no such candidate it returns what it started with. *)
Lemma findBestMatch_loop_spec (targetLine : line) (candidateLines : list line) :
  forall idx best,
    let r := findBestMatch_loop targetLine candidateLines idx best in
    (score best <= score r)%Q /\
    (forall k s, nth_error (candidateScores targetLine candidateLines) k = Some s ->
                 (s <= score r)%Q) /\
    (r = best \/
     exists k,
       bestIndex r = Z.of_nat (idx + k) /\
       nth_error (candidateScores targetLine candidateLines) k = Some (score r) /\
       (score best < score r)%Q /\
       (forall k' s', k' < k ->
          nth_error (candidateScores targetLine candidateLines) k' = Some s' ->
          (s' < score r)%Q)).
Proof.
  induction candidateLines as [|c rest IH]; intros idx best; cbn zeta.
  - cbn. split; [apply Qle_refl|]. split; [|left; reflexivity].
    intros [|k] s H; discriminate H.
  - cbn [findBestMatch_loop candidateScores map].
    set (sim := getTextSimilarity (text targetLine) (text c)).
    fold (candidateScores targetLine rest).
    destruct (Qgtb sim (score best)) eqn:E.
    + apply Qgtb_true_iff in E.
      specialize (IH (S idx) {| score := sim; bestIndex := Z.of_nat idx |}).
      cbn zeta in IH. cbn [score] in IH.
      destruct IH as (Hle & Hub & Hcase).
      split; [apply Qlt_le_weak; eapply Qlt_le_trans; eassumption|].
      split.
      * intros [|k] s Hk; cbn in Hk.
        -- injection Hk as <-. exact Hle.
        -- eapply Hub; eassumption.
      * right. destruct Hcase as [Heq | (k & Hidx & Hk & Hlt & Hbefore)].
        -- exists 0. rewrite Heq. cbn [score bestIndex nth_error].
           rewrite Nat.add_0_r. repeat split; try assumption.
           intros k' s' Hk'. lia.
        -- exists (S k). cbn [nth_error].
           split; [rewrite Hidx; f_equal; lia|].
           split; [exact Hk|].
           split; [eapply Qlt_trans; eassumption|].
           intros [|k'] s' Hk' Hs'; cbn in Hs'.
           ++ injection Hs' as <-. exact Hlt.
           ++ eapply Hbefore; [|eassumption]. lia.
    + apply Qgtb_false_iff in E. apply Qnot_lt_le in E.
      specialize (IH (S idx) best). cbn zeta in IH.
      destruct IH as (Hle & Hub & Hcase).
      split; [exact Hle|]. split.
      * intros [|k] s Hk; cbn in Hk.
        -- injection Hk as <-. eapply Qle_trans; eassumption.
        -- eapply Hub; eassumption.
      * destruct Hcase as [Heq | (k & Hidx & Hk & Hlt & Hbefore)];
          [left; exact Heq|].
        right. exists (S k). cbn [nth_error].
        split; [rewrite Hidx; f_equal; lia|].
        split; [exact Hk|]. split; [exact Hlt|].
        intros [|k'] s' Hk' Hs'; cbn in Hs'.
        -- injection Hs' as <-. eapply Qle_lt_trans; eassumption.
        -- eapply Hbefore; [|eassumption]. lia.
Qed.

(** C8, as the code has it.  The score returned is at least every
    candidate's score.  A candidate is returned only when some candidate
    scores above 0: it is then the first one with the highest score, and
    the score returned is its score.  Otherwise, and on the empty list,
    the result is score 0 with index -1. *)
Theorem findBestMatch_first_best_above_zero
    (targetLine : line) (candidateLines : list line) :
  let r := findBestMatch targetLine candidateLines in
  let scores := candidateScores targetLine candidateLines in
  (forall k s, nth_error scores k = Some s -> (s <= score r)%Q) /\
  ((bestIndex r = (-1)%Z /\ score r = 0%Q) \/
   (exists k,
      bestIndex r = Z.of_nat k /\
      nth_error scores k = Some (score r) /\
      (0 < score r)%Q /\
      (forall k' s', k' < k -> nth_error scores k' = Some s' ->
                     (s' < score r)%Q))) /\
  (candidateLines = [] -> r = {| score := 0%Q; bestIndex := (-1)%Z |}).
Proof.
  intros r scores.
  pose proof (findBestMatch_loop_spec targetLine candidateLines 0
                {| score := 0%Q; bestIndex := (-1)%Z |}) as H.
  cbn zeta in H. fold (findBestMatch targetLine candidateLines) in H.
  fold r in H. fold scores in H. cbn [score] in H.
  destruct H as (_ & Hub & Hcase).
  split; [exact Hub|]. split.
  - destruct Hcase as [Heq | (k & Hidx & Hk & Hlt & Hbefore)].
    + left. rewrite Heq. split; reflexivity.
    + right. exists k. repeat split; assumption.
  - intros ->. reflexivity.
Qed.

(** ** Properties of the structural predicates *)

Lemma cellsEqual_refl (cells : list string) : cellsEqual cells cells = true.
Proof.
  induction cells as [|c t IH]; [reflexivity|].
  cbn. rewrite String.eqb_refl. exact IH.
Qed.

Lemma rowsEqual_refl (rows : list (list string)) : rowsEqual rows rows = true.
Proof.
  induction rows as [|r t IH]; [reflexivity|].
  cbn. rewrite Nat.eqb_refl, cellsEqual_refl. exact IH.
Qed.

Lemma compareTableContent_same (e : dom_element) :
  compareTableContent (JElem e) (JElem e) = Ok true.
Proof.
  unfold compareTableContent. cbn.
  rewrite Nat.eqb_refl, rowsEqual_refl. reflexivity.
Qed.

Lemma compareImageContent_same (e : dom_element) :
  compareImageContent (JElem e) (JElem e) = Ok true.
Proof.
  unfold compareImageContent. cbn. rewrite !String.eqb_refl. reflexivity.
Qed.

Lemma areTextsEqual_refl (t : string) : areTextsEqual t t = true.
Proof. unfold areTextsEqual. apply String.eqb_refl. Qed.

Lemma absent_falsy (v : jsval) : absent v -> falsy v = true.
Proof. intros [-> | ->]; reflexivity. Qed.

(** C9. With an argument that is null or missing, the table predicate and
    the image predicate return [false] and do not throw, whatever the
    other argument is; a match of two tables, or of two images, one of
    which has no element, is therefore classified without failure, as
    modified on both sides. *)
Theorem structural_predicates_null_safe (a b : jsval) :
  absent a \/ absent b ->
  compareTableContent a b = Ok false /\
  compareImageContent a b = Ok false /\
  (forall st L R,
     element L = a -> element R = b ->
     (isTable L && isTable R = true) \/ (isImage L && isImage R = true) ->
     classifyMatch st L R
     = Ok (push st (spread L modified None) (spread R modified None) 1 1)).
Proof.
  intros H.
  assert (Hf : falsy a || falsy b = true).
  { apply orb_true_iff. destruct H as [H|H]; [left|right];
      apply absent_falsy; exact H. }
  assert (Ht : compareTableContent a b = Ok false)
    by (unfold compareTableContent; rewrite Hf; reflexivity).
  assert (Hi : compareImageContent a b = Ok false)
    by (unfold compareImageContent; rewrite Hf; reflexivity).
  split; [exact Ht|]. split; [exact Hi|].
  intros st L R <- <- Hk. unfold classifyMatch.
  destruct (isTable L && isTable R) eqn:ET.
  - rewrite Ht. reflexivity.
  - destruct Hk as [Hk|Hk]; [discriminate|].
    rewrite Hk, Hi. reflexivity.
Qed.

(** ** Two runs of the whole comparison: pure insertion and identity *)

Lemma align_step_end (leftLines rightLines : list line) (i j : nat) :
  List.length leftLines <= i -> List.length rightLines <= j ->
  align_step leftLines rightLines i j = None.
Proof.
  intros Hi Hj. unfold align_step.
  apply Nat.ltb_ge in Hi. apply Nat.ltb_ge in Hj. rewrite Hi, Hj. reflexivity.
Qed.

Lemma align_step_empty_left (rightLines : list line) (j : nat) (r : line) :
  nth_error rightLines j = Some r ->
  align_step [] rightLines 0 j = Some (DrainAddition, additionAt j, (0, S j)).
Proof.
  intros H. unfold align_step. rewrite H.
  assert (Hj : (j <? List.length rightLines) = true)
    by (apply Nat.ltb_lt; apply nth_error_Some; congruence).
  rewrite Hj. reflexivity.
Qed.

Lemma align_step_same (ls : list line) (i : nat) (l : line) :
  nth_error ls i = Some l ->
  align_step ls ls i i = Some (DirectMatch, matchAt i, (S i, S i)).
Proof.
  intros H. unfold align_step. rewrite H.
  assert (Hi : (i <? List.length ls) = true)
    by (apply Nat.ltb_lt; apply nth_error_Some; congruence).
  rewrite Hi. cbn [orb]. unfold directTest.
  rewrite areTextsEqual_refl, orb_true_r. reflexivity.
Qed.

Lemma nth_error_in_range {A : Type} (l : list A) (i : nat) :
  i < List.length l -> exists x, nth_error l i = Some x.
Proof.
  intros H. destruct (nth_error l i) eqn:E; [eauto|].
  apply nth_error_None in E. lia.
Qed.

Lemma seq_from (j n : nat) : j < n -> seq j (n - j) = j :: seq (S j) (n - S j).
Proof. intros H. replace (n - j) with (S (n - S j)) by lia. reflexivity. Qed.

Lemma align_loop_empty_left (rightLines : list line) (fuel : nat) :
  forall j acc,
    j <= List.length rightLines -> List.length rightLines - j <= fuel ->
    align_loop [] rightLines fuel 0 j acc
    = Some (acc ++ map additionAt (seq j (List.length rightLines - j))).
Proof.
  induction fuel as [|fuel IH]; intros j acc Hj Hfuel.
  - cbn. rewrite align_step_end by (cbn; lia).
    replace (List.length rightLines - j) with 0 by lia.
    cbn. rewrite app_nil_r. reflexivity.
  - cbn [align_loop].
    destruct (Nat.eq_dec j (List.length rightLines)) as [->|Hne].
    + rewrite align_step_end by (cbn; lia).
      rewrite Nat.sub_diag. cbn. rewrite app_nil_r. reflexivity.
    + destruct (nth_error_in_range rightLines j) as [r Hr]; [lia|].
      rewrite (align_step_empty_left _ _ _ Hr).
      rewrite (seq_from j) by lia. rewrite IH by lia. cbn [map].
      rewrite <- app_assoc. reflexivity.
Qed.

Lemma align_loop_same (ls : list line) (fuel : nat) :
  forall i acc,
    i <= List.length ls -> List.length ls - i <= fuel ->
    align_loop ls ls fuel i i acc
    = Some (acc ++ map matchAt (seq i (List.length ls - i))).
Proof.
  induction fuel as [|fuel IH]; intros i acc Hi Hfuel.
  - cbn. rewrite align_step_end by lia.
    replace (List.length ls - i) with 0 by lia.
    cbn. rewrite app_nil_r. reflexivity.
  - cbn [align_loop].
    destruct (Nat.eq_dec i (List.length ls)) as [->|Hne].
    + rewrite align_step_end by lia.
      rewrite Nat.sub_diag. cbn. rewrite app_nil_r. reflexivity.
    + destruct (nth_error_in_range ls i) as [l Hl]; [lia|].
      rewrite (align_step_same _ _ _ Hl).
      rewrite (seq_from i) by lia. rewrite IH by lia. cbn [map].
      rewrite <- app_assoc. reflexivity.
Qed.

Lemma createOptimalAlignment_empty_left (rightLines : list line) :
  createOptimalAlignment [] rightLines
  = map additionAt (seq 0 (List.length rightLines)).
Proof.
  unfold createOptimalAlignment.
  rewrite align_loop_empty_left by (cbn; lia).
  rewrite Nat.sub_0_r. reflexivity.
Qed.

Lemma createOptimalAlignment_same (ls : list line) :
  createOptimalAlignment ls ls = map matchAt (seq 0 (List.length ls)).
Proof.
  unfold createOptimalAlignment.
  rewrite align_loop_same by lia.
  rewrite Nat.sub_0_r. reflexivity.
Qed.

Lemma skipn_nth_error {A : Type} (l : list A) (j : nat) (x : A) :
  nth_error l j = Some x -> skipn j l = x :: skipn (S j) l.
Proof.
  revert j. induction l as [|a l IH]; intros [|j] H; try discriminate.
  - injection H as ->. reflexivity.
  - cbn in H. cbn [skipn]. rewrite (IH j H). reflexivity.
Qed.

(** Classifying additions [j, j+1, ..., j+n-1] against an empty left
    list. *)
Lemma classifyAll_additions (leftLines rightLines : list line) (n : nat) :
  forall j st,
    j + n <= List.length rightLines ->
    classifyAll leftLines rightLines st (map additionAt (seq j n))
    = Ok {| leftProcessed :=
              leftProcessed st
              ++ map (placeholder empty_space_added) (firstn n (skipn j rightLines));
            rightProcessed :=
              rightProcessed st
              ++ map (fun r => spread r added None) (firstn n (skipn j rightLines));
            st_additions := st_additions st + n;
            st_deletions := st_deletions st |}.
Proof.
  induction n as [|n IH]; intros j st Hn.
  - cbn. rewrite !app_nil_r, Nat.add_0_r. destruct st; reflexivity.
  - cbn [seq map classifyAll].
    destruct (nth_error_in_range rightLines j) as [r Hr]; [lia|].
    unfold classify at 1. cbn [additionAt type rightIndex leftIndex lineAt].
    rewrite Hr. cbn [bind]. rewrite IH by lia.
    rewrite (skipn_nth_error _ _ _ Hr). cbn [firstn map push leftProcessed
      rightProcessed st_additions st_deletions].
    rewrite <- !app_assoc. cbn [app].
    f_equal. f_equal; lia.
Qed.

Lemma classifyMatch_same (st : cstate) (l : line) :
  hasElement l ->
  classifyMatch st l l
  = Ok (push st (spread l none None) (spread l none None) 0 0).
Proof.
  intros [e He]. unfold classifyMatch. rewrite He.
  rewrite compareTableContent_same, compareImageContent_same.
  rewrite areTextsEqual_refl. cbn [bind].
  destruct (isTable l && isTable l); [reflexivity|].
  destruct (isImage l && isImage l); reflexivity.
Qed.

Lemma classifyAll_matches (ls : list line) (n : nat) :
  Forall hasElement ls ->
  forall i st,
    i + n <= List.length ls ->
    classifyAll ls ls st (map matchAt (seq i n))
    = Ok {| leftProcessed :=
              leftProcessed st
              ++ map (fun l => spread l none None) (firstn n (skipn i ls));
            rightProcessed :=
              rightProcessed st
              ++ map (fun l => spread l none None) (firstn n (skipn i ls));
            st_additions := st_additions st;
            st_deletions := st_deletions st |}.
Proof.
  intros Hall. induction n as [|n IH]; intros i st Hn.
  - cbn. rewrite !app_nil_r. destruct st; reflexivity.
  - cbn [seq map classifyAll].
    destruct (nth_error_in_range ls i) as [l Hl]; [lia|].
    unfold classify at 1. cbn [matchAt type rightIndex leftIndex lineAt].
    rewrite Hl.
    assert (He : hasElement l).
    { eapply Forall_forall; [exact Hall|]. eapply nth_error_In; eassumption. }
    rewrite (classifyMatch_same st l He). cbn [bind]. rewrite IH by lia.
    rewrite (skipn_nth_error _ _ _ Hl). cbn [firstn map push leftProcessed
      rightProcessed st_additions st_deletions].
    rewrite <- !app_assoc, !Nat.add_0_r. reflexivity.
Qed.

(** C5. Against an empty left list the alignment is one insertion per
    right block, in order; the left output is one added-placeholder per
    right block, carrying that block's tag name, table and image flags and
    text; the right output is the right blocks tagged added; and the
    summary counts [length rightLines] additions, no deletion, and as many
    changes. *)
Theorem pure_insertion (rightLines : list line) :
  createOptimalAlignment [] rightLines
  = map additionAt (seq 0 (List.length rightLines)) /\
  performLineMutualComparison [] rightLines
  = Ok (map (placeholder empty_space_added) rightLines,
        map (fun r => spread r added None) rightLines,
        {| additions := List.length rightLines;
           deletions := 0;
           changes := List.length rightLines |}) /\
  List.length (map (placeholder empty_space_added) rightLines)
  = List.length rightLines /\
  (forall r, highlight (placeholder empty_space_added r) = empty_space_added /\
             p_tagName (placeholder empty_space_added r) = tagName r /\
             p_isTable (placeholder empty_space_added r) = isTable r /\
             p_isImage (placeholder empty_space_added r) = isImage r /\
             placeholderText (placeholder empty_space_added r) = Some (text r)).
Proof.
  split; [apply createOptimalAlignment_empty_left|].
  split; [|split; [apply length_map | intros r; repeat split]].
  unfold performLineMutualComparison.
  rewrite createOptimalAlignment_empty_left.
  rewrite classifyAll_additions by (cbn; lia).
  cbn [bind leftProcessed rightProcessed st_additions st_deletions
         skipn app Nat.add].
  rewrite firstn_all, Nat.add_0_r. reflexivity.
Qed.

(** C7. A block list aligned against itself gives one match per block,
    pairing it with itself; for each pair the normalized texts are equal
    and the table and image predicates hold of the block's element; every
    output block on both sides is unchanged, and the summary is all
    zero. *)
Theorem identity_alignment (ls : list line) :
  Forall hasElement ls ->
  createOptimalAlignment ls ls = map matchAt (seq 0 (List.length ls)) /\
  (forall l, In l ls ->
     areTextsEqual (text l) (text l) = true /\
     compareTableContent (element l) (element l) = Ok true /\
     compareImageContent (element l) (element l) = Ok true) /\
  performLineMutualComparison ls ls
  = Ok (map (fun l => spread l none None) ls,
        map (fun l => spread l none None) ls,
        {| additions := 0; deletions := 0; changes := 0 |}).
Proof.
  intros Hall.
  split; [apply createOptimalAlignment_same|]. split.
  - intros l Hl.
    destruct (proj1 (Forall_forall _ _) Hall l Hl) as [e He]. rewrite He.
    split; [apply areTextsEqual_refl|].
    split; [apply compareTableContent_same | apply compareImageContent_same].
  - unfold performLineMutualComparison.
    rewrite createOptimalAlignment_same.
    rewrite (classifyAll_matches ls _ Hall) by (cbn; lia).
    cbn [bind leftProcessed rightProcessed st_additions st_deletions
           skipn app Nat.add].
    rewrite firstn_all. reflexivity.
Qed.

(** ** The pair classifier on blocks of different kinds *)

(** C2, as the code has it.  A match of two blocks of different kinds is
    classified by their texts: unchanged on both sides, counting nothing,
    when the normalized texts are equal; otherwise modified on both sides,
    with the word-level diff run on their HTML and its two renderings
    attached, counting one addition and one deletion. *)
Theorem kind_mismatch_falls_back_to_text (st : cstate) (L R : line) :
  oneKind L -> oneKind R ->
  kind_eqb (kindOf L) (kindOf R) = false ->
  classifyMatch st L R
  = if areTextsEqual (text L) (text R)
    then Ok (push st (spread L none None) (spread R none None) 0 0)
    else
      hl <- performWordLevelDiff (html L) (html R) ;;
      Ok (push st (spread L modified (Some (fst hl)))
            (spread R modified (Some (snd hl))) 1 1).
Proof.
  unfold oneKind, kindOf, classifyMatch.
  destruct (isTable L), (isTable R), (isImage L), (isImage R); cbn;
    intros H1 H2 H3; try discriminate; reflexivity.
Qed.

(** ** Properties of the entry point *)

(** C10. The promise of [compareHtmlDocuments] is never rejected: it is
    resolved, and whenever the [try] block throws, in the text
    extraction or anywhere in the mutual comparison, it is resolved with
    both sides as one [equal] entry holding the input HTML unchanged, an
    all-zero summary and an empty detailed report. *)
Theorem compareHtmlDocuments_never_rejects
    (div : Type)
    (extractPlainText : string -> result string)
    (htmlToDiv : string -> result div)
    (extractDocumentLines : div -> result (list line))
    (applyProcessedLinesToDiv : div -> list processed -> result div)
    (innerHTML : div -> string)
    (generateSimpleDetailedReport : list line -> list line -> detailed_report)
    (leftHtml rightHtml : string) :
  let run :=
    compareHtmlDocuments div extractPlainText htmlToDiv extractDocumentLines
      applyProcessedLinesToDiv innerHTML generateSimpleDetailedReport
      leftHtml rightHtml in
  let body :=
    tryBlock div extractPlainText htmlToDiv extractDocumentLines
      applyProcessedLinesToDiv innerHTML generateSimpleDetailedReport
      leftHtml rightHtml in
  let mutual :=
    performMutualComparison div htmlToDiv extractDocumentLines
      applyProcessedLinesToDiv innerHTML generateSimpleDetailedReport
      leftHtml rightHtml in
  (forall e, run <> Rejected e) /\
  (exists v, run = Resolved v) /\
  (forall e, body = Throw e ->
     run = Resolved
             {| leftDiffs := [mkEntry "equal" leftHtml];
                rightDiffs := [mkEntry "equal" rightHtml];
                cmp_summary := {| additions := 0; deletions := 0; changes := 0 |};
                detailed := {| lines := []; tables := []; images := [] |} |}) /\
  (forall e, extractPlainText leftHtml = Throw e
             \/ extractPlainText rightHtml = Throw e
             \/ mutual = Throw e ->
     run = Resolved (unchangedResult leftHtml rightHtml)).
Proof.
  intros run body mutual. unfold run, compareHtmlDocuments. fold body.
  split; [|split; [|split]].
  - intros e. destruct body; discriminate.
  - destruct body; eexists; reflexivity.
  - intros e ->. reflexivity.
  - intros e H. unfold body, tryBlock. fold mutual.
    destruct (extractPlainText leftHtml) as [lt|el]; [|reflexivity].
    destruct (extractPlainText rightHtml) as [rt|er]; [|reflexivity].
    cbn [bind]. destruct (String.eqb (trim lt) (trim rt)); [reflexivity|].
    destruct H as [H|[H|H]]; try discriminate. rewrite H. reflexivity.
Qed.

(** ** Properties of the similarity metric *)

Lemma length_append (a b : string) :
  String.length (a ++ b)%string = String.length a + String.length b.
Proof. induction a as [|c a IH]; cbn; [reflexivity | rewrite IH; reflexivity]. Qed.

Lemma unchanged_fold_le_side (skip : Z) (diffs : list (Z * string)) :
  skip <> 0%Z ->
  forall acc,
    fold_left
      (fun acc diff =>
         if (fst diff =? 0)%Z then acc + String.length (snd diff) else acc)
      diffs acc
    <= acc + String.length (sideText skip diffs).
Proof.
  intros Hskip. induction diffs as [|[op t] rest IH]; intros acc; cbn.
  - lia.
  - fold (sideText skip rest). destruct (op =? 0)%Z eqn:E0.
    + apply Z.eqb_eq in E0. subst op.
      destruct (0 =? skip)%Z eqn:Es; [apply Z.eqb_eq in Es; congruence|].
      rewrite length_append. specialize (IH (acc + String.length t)). lia.
    + destruct (op =? skip)%Z.
      * apply IH.
      * rewrite length_append. specialize (IH acc). lia.
Qed.

Lemma Zpos_of_nat (n : nat) : 0 < n -> Z.pos (Pos.of_nat n) = Z.of_nat n.
Proof. intros H. rewrite <- positive_nat_Z, Nat2Pos.id by lia. reflexivity. Qed.

Lemma nonempty_length (a : string) : isEmptyString a = false -> 0 < String.length a.
Proof. destruct a; [discriminate | cbn; lia]. Qed.

Section OracleContract.

(** What the code relies on from diff-match-patch: the spans of an edit
    script spell the two texts, and two equal texts give one equal span. *)
Hypothesis diff_main_reconstructs :
  forall a b,
    sideText 1 (diff_main a b) = a /\ sideText (-1) (diff_main a b) = b.

Hypothesis diff_main_equal :
  forall a, isEmptyString a = false -> diff_main a a = [(0%Z, a)].

Lemma unchangedLength_le_min (a b : string) :
  unchangedLength (diff_main a b) <= Nat.min (String.length a) (String.length b).
Proof.
  destruct (diff_main_reconstructs a b) as [Ha Hb].
  pose proof (unchanged_fold_le_side 1 (diff_main a b) ltac:(discriminate) 0) as H1.
  pose proof (unchanged_fold_le_side (-1) (diff_main a b) ltac:(discriminate) 0) as H2.
  rewrite Ha in H1. rewrite Hb in H2. unfold unchangedLength. cbn in H1, H2. lia.
Qed.

(** C6. The similarity of two empty strings is 1; of an empty and a
    non-empty string, 0; of two non-empty strings, the total length of the
    equal spans of the edit script over the larger of the two lengths.
    A string is at similarity 1 from itself, and every similarity lies
    between 0 and 1. *)
Theorem similarity_metric (a b : string) :
  getTextSimilarity "" "" = 1%Q /\
  (isEmptyString a = false ->
     getTextSimilarity a "" = 0%Q /\ getTextSimilarity "" a = 0%Q) /\
  (isEmptyString a = false -> isEmptyString b = false ->
     getTextSimilarity a b
     = (Z.of_nat (unchangedLength (diff_main a b))
        # Pos.of_nat (Nat.max (String.length a) (String.length b)))%Q) /\
  (getTextSimilarity a a == 1)%Q /\
  (0 <= getTextSimilarity a b <= 1)%Q.
Proof.
  split; [reflexivity|]. split; [|split; [|split]].
  - intros Ha. unfold getTextSimilarity. rewrite Ha. split; reflexivity.
  - intros Ha Hb. unfold getTextSimilarity. rewrite Ha, Hb. cbn [andb orb].
    pose proof (nonempty_length a Ha).
    destruct (0 <? Nat.max (String.length a) (String.length b)) eqn:E;
      [reflexivity|].
    apply Nat.ltb_ge in E. lia.
  - unfold getTextSimilarity. destruct (isEmptyString a) eqn:Ha.
    + cbn. reflexivity.
    + cbn [andb orb]. rewrite (diff_main_equal a Ha).
      pose proof (nonempty_length a Ha) as Hlen.
      rewrite Nat.max_id.
      destruct (0 <? String.length a) eqn:E; [|apply Nat.ltb_ge in E; lia].
      unfold unchangedLength. cbn [fold_left fst snd Z.eqb Nat.add].
      unfold Qeq. cbn [Qnum Qden]. rewrite Zpos_of_nat by exact Hlen. lia.
  - unfold getTextSimilarity.
    destruct (isEmptyString a) eqn:Ha, (isEmptyString b) eqn:Hb;
      cbn [andb orb]; try (split; discriminate).
    pose proof (nonempty_length a Ha) as Hlen.
    pose proof (unchangedLength_le_min a b) as Hle.
    destruct (0 <? Nat.max (String.length a) (String.length b)) eqn:E;
      [|split; discriminate].
    apply Nat.ltb_lt in E.
    unfold Qle. cbn [Qnum Qden]. rewrite Zpos_of_nat by exact E. lia.
Qed.

Lemma unchanged_fold_equalText (diffs : list (Z * string)) :
  forall acc,
    fold_left
      (fun acc diff =>
         if (fst diff =? 0)%Z then acc + String.length (snd diff) else acc)
      diffs acc
    = acc + String.length (equalText diffs).
Proof.
  induction diffs as [|[op t] rest IH]; intros acc; cbn.
  - lia.
  - fold (equalText rest). destruct (op =? 0)%Z.
    + rewrite IH, length_append. lia.
    + apply IH.
Qed.

Lemma unchangedLength_equalText (diffs : list (Z * string)) :
  unchangedLength diffs = String.length (equalText diffs).
Proof. unfold unchangedLength. rewrite unchanged_fold_equalText. reflexivity. Qed.

Lemma equalText_le_side (skip : Z) (diffs : list (Z * string)) :
  skip <> 0%Z ->
  String.length (equalText diffs) <= String.length (sideText skip diffs).
Proof.
  intros Hskip.
  pose proof (unchanged_fold_le_side skip diffs Hskip 0) as H.
  rewrite unchanged_fold_equalText in H. exact H.
Qed.

Lemma length_zero_empty (s : string) : String.length s = 0 -> s = EmptyString.
Proof. destruct s; [reflexivity | discriminate]. Qed.

(** An edit script whose equal spans are as long as one side's text has
    nothing but equal spans on that side. *)
Lemma equalText_fills_side (skip : Z) (diffs : list (Z * string)) :
  skip <> 0%Z ->
  String.length (equalText diffs) = String.length (sideText skip diffs) ->
  equalText diffs = sideText skip diffs.
Proof.
  intros Hskip. induction diffs as [|[op t] rest IH]; [reflexivity|].
  pose proof (equalText_le_side skip rest Hskip) as Hle.
  cbn. fold (equalText rest). fold (sideText skip rest).
  destruct (op =? 0)%Z eqn:E0.
  - apply Z.eqb_eq in E0. subst op.
    destruct (0 =? skip)%Z eqn:Es; [apply Z.eqb_eq in Es; congruence|].
    rewrite !length_append. intros H. rewrite IH by lia. reflexivity.
  - destruct (op =? skip)%Z; [exact IH|].
    rewrite length_append. intros H.
    assert (Ht : t = EmptyString) by (apply length_zero_empty; lia).
    subst t. cbn. apply IH. cbn in H. exact H.
Qed.

Lemma getTextSimilarity_bounds (a b : string) :
  (0 <= getTextSimilarity a b <= 1)%Q.
Proof.
  unfold getTextSimilarity.
  destruct (isEmptyString a) eqn:Ha, (isEmptyString b) eqn:Hb;
    cbn [andb orb]; try (split; discriminate).
  pose proof (unchangedLength_le_min a b) as Hle.
  destruct (0 <? Nat.max (String.length a) (String.length b)) eqn:E;
    [|split; discriminate].
  apply Nat.ltb_lt in E.
  unfold Qle. cbn [Qnum Qden]. rewrite Zpos_of_nat by exact E. lia.
Qed.

(** X8. Under the contract of the diff library, two strings are at
    similarity 1 exactly when they are the same string. *)
Theorem similarity_one_iff_same_string (a b : string) :
  (getTextSimilarity a b == 1)%Q <-> a = b.
Proof.
  split.
  - unfold getTextSimilarity.
    destruct (isEmptyString a) eqn:Ha, (isEmptyString b) eqn:Hb;
      cbn [andb orb]; try (intros H; discriminate H).
    + intros _. destruct a, b; try discriminate. reflexivity.
    + pose proof (unchangedLength_le_min a b) as Hle.
      destruct (0 <? Nat.max (String.length a) (String.length b)) eqn:E;
        [|intros H; discriminate H].
      apply Nat.ltb_lt in E.
      unfold Qeq. cbn [Qnum Qden]. rewrite Zpos_of_nat by exact E.
      intros H.
      assert (Hu : unchangedLength (diff_main a b)
                   = Nat.max (String.length a) (String.length b)) by lia.
      destruct (diff_main_reconstructs a b) as [Hl Hr].
      rewrite unchangedLength_equalText in Hu, Hle.
      assert (Ea : equalText (diff_main a b) = a).
      { rewrite (equalText_fills_side 1);
          [exact Hl | discriminate | rewrite Hl; lia]. }
      assert (Eb : equalText (diff_main a b) = b).
      { rewrite (equalText_fills_side (-1));
          [exact Hr | discriminate | rewrite Hr; lia]. }
      congruence.
  - intros <-. unfold getTextSimilarity. destruct (isEmptyString a) eqn:Ha.
    + cbn. reflexivity.
    + cbn [andb orb]. rewrite (diff_main_equal a Ha).
      pose proof (nonempty_length a Ha) as Hlen.
      rewrite Nat.max_id.
      destruct (0 <? String.length a) eqn:E; [|apply Nat.ltb_ge in E; lia].
      unfold unchangedLength. cbn [fold_left fst snd Z.eqb Nat.add].
      unfold Qeq. cbn [Qnum Qden]. rewrite Zpos_of_nat by exact Hlen. lia.
Qed.

Lemma candidateScores_bounds (targetLine : line) (candidateLines : list line)
    (k : nat) (s : Q) :
  nth_error (candidateScores targetLine candidateLines) k = Some s ->
  (0 <= s <= 1)%Q /\ k < List.length candidateLines.
Proof.
  intros H. split.
  - unfold candidateScores in H. apply nth_error_In in H.
    apply in_map_iff in H. destruct H as (c & <- & _).
    apply getTextSimilarity_bounds.
  - assert (Hk : k < List.length (candidateScores targetLine candidateLines))
      by (apply nth_error_Some; congruence).
    unfold candidateScores in Hk. rewrite length_map in Hk. exact Hk.
Qed.

(** X9. Under the contract of the diff library, the lookahead matcher
    returns a score between 0 and 1 and an index that is -1 or a position
    of the candidate list; the index is -1 exactly when the score is not
    above 0. *)
Theorem findBestMatch_result_in_range
    (targetLine : line) (candidateLines : list line) :
  let r := findBestMatch targetLine candidateLines in
  (0 <= score r <= 1)%Q /\
  (-1 <= bestIndex r < Z.of_nat (List.length candidateLines))%Z /\
  (bestIndex r = (-1)%Z <-> ~ (0 < score r)%Q).
Proof.
  intros r.
  pose proof (findBestMatch_loop_spec targetLine candidateLines 0
                {| score := 0%Q; bestIndex := (-1)%Z |}) as H.
  cbn zeta in H. fold (findBestMatch targetLine candidateLines) in H.
  fold r in H. cbn [score] in H.
  destruct H as (_ & _ & [Heq | (k & Hidx & Hk & Hlt & _)]).
  - rewrite Heq. cbn [score bestIndex].
    split; [split; discriminate|]. split; [lia|].
    split; [intros _ H; discriminate H | reflexivity].
  - destruct (candidateScores_bounds _ _ _ _ Hk) as [Hb Hlen].
    split; [exact Hb|]. rewrite Hidx, Nat.add_0_l.
    split; [lia|]. split; [lia | intros Hn; contradiction].
Qed.

End OracleContract.

(** ** Further properties of the aligner *)

(** A property every turn's decision has, every decision of the loop's
    result has. *)
Lemma align_loop_Forall (P : decision -> Prop) (leftLines rightLines : list line) :
  (forall i j b d n, align_step leftLines rightLines i j = Some (b, d, n) -> P d) ->
  forall fuel i j acc ds,
    align_loop leftLines rightLines fuel i j acc = Some ds ->
    Forall P acc -> Forall P ds.
Proof.
  intros Hstep. induction fuel as [|fuel IH]; intros i j acc ds; cbn.
  - destruct (align_step leftLines rightLines i j) as [[[b d] [i' j']]|];
      [discriminate|]. intros [= <-] H. exact H.
  - destruct (align_step leftLines rightLines i j) as [[[b d] [i' j']]|] eqn:E.
    + intros Hloop Hacc. eapply IH; [exact Hloop|].
      apply Forall_app. split; [exact Hacc|].
      constructor; [|constructor]. eapply Hstep; exact E.
    + intros [= <-] H. exact H.
Qed.

Lemma align_step_wellShaped (leftLines rightLines : list line) (i j : nat) b d n :
  align_step leftLines rightLines i j = Some (b, d, n) ->
  wellShaped leftLines rightLines d.
Proof.
  unfold align_step.
  destruct ((i <? List.length leftLines) || (j <? List.length rightLines));
    [|discriminate].
  destruct (nth_error leftLines i) as [l|] eqn:Hl;
    destruct (nth_error rightLines j) as [r|] eqn:Hr; try discriminate.
  all: try (assert (i < List.length leftLines)
              by (apply nth_error_Some; congruence)).
  all: try (assert (j < List.length rightLines)
              by (apply nth_error_Some; congruence)).
  all: repeat match goal with
         | |- context [if ?c then _ else _] => destruct c
         end.
  all: intros [= <- <- <-]; cbn; auto.
Qed.

Lemma alignment_well_shaped_aux (leftLines rightLines : list line) :
  Forall (wellShaped leftLines rightLines)
    (createOptimalAlignment leftLines rightLines).
Proof.
  eapply align_loop_Forall;
    [ intros i j b d n; apply align_step_wellShaped
    | apply align_loop_total
    | constructor ].
Qed.

(** X2. Every decision of the alignment has the shape of its type: a match
    refers to a left and a right block, an addition to a right block only,
    a deletion to a left block only, and every reference is inside its
    list. *)
Theorem alignment_well_shaped (leftLines rightLines : list line) :
  Forall (wellShaped leftLines rightLines)
    (createOptimalAlignment leftLines rightLines).
Proof.
  eapply align_loop_Forall.
  - intros i j b d n. apply align_step_wellShaped.
  - apply align_loop_total.
  - constructor.
Qed.

Lemma createOptimalAlignment_refs (leftLines rightLines : list line) :
  leftRefs (createOptimalAlignment leftLines rightLines)
  = seq 0 (List.length leftLines) /\
  rightRefs (createOptimalAlignment leftLines rightLines)
  = seq 0 (List.length rightLines).
Proof.
  destruct (align_loop_covers leftLines rightLines
              (List.length leftLines + List.length rightLines) 0 0 [])
    as (ds & H & Hl & Hr); try lia.
  unfold createOptimalAlignment. rewrite H. cbn [app].
  rewrite Hl, Hr, !Nat.sub_0_r. split; reflexivity.
Qed.

Lemma wellShaped_refs_length (leftLines rightLines : list line) (ds : list decision) :
  Forall (wellShaped leftLines rightLines) ds ->
  List.length (leftRefs ds) <= List.length ds /\
  List.length (rightRefs ds) <= List.length ds /\
  List.length ds <= List.length (leftRefs ds) + List.length (rightRefs ds).
Proof.
  induction 1 as [|d ds Hd _ IH]; [cbn; lia|].
  change (d :: ds) with ([d] ++ ds).
  rewrite leftRefs_app, rightRefs_app, !length_app.
  destruct d as [[i|] [j|] []]; cbn in Hd |- *; try contradiction; lia.
Qed.

(** X1. The alignment has at least as many decisions as the longer list
    has blocks, and at most as many as both lists have together. *)
Theorem alignment_length_bounds (leftLines rightLines : list line) :
  Nat.max (List.length leftLines) (List.length rightLines)
  <= List.length (createOptimalAlignment leftLines rightLines)
  <= List.length leftLines + List.length rightLines.
Proof.
  pose proof (wellShaped_refs_length _ _ _
                (alignment_well_shaped_aux leftLines rightLines)) as H.
  destruct (createOptimalAlignment_refs leftLines rightLines) as [Hl Hr].
  rewrite Hl, Hr, !length_seq in H. lia.
Qed.

(** ** Further properties of the classifier *)

Lemma original_spread (l : line) (h : highlight_tag) (ph : option string) :
  original (spread l h ph) = Some l.
Proof. destruct l; reflexivity. Qed.

Lemma original_placeholder (h : highlight_tag) (other : line) :
  original (placeholder h other) = None.
Proof. reflexivity. Qed.

(** A successful match pushes the two lines, both unchanged or both
    modified, and counts the modification on both sides. *)
Lemma classifyMatch_Ok (st st' : cstate) (L R : line) :
  classifyMatch st L R = Ok st' ->
  exists h phl phr,
    st' = push st (spread L h phl) (spread R h phr)
            (countsAddition h) (countsDeletion h) /\
    (h = none \/ h = modified).
Proof.
  unfold classifyMatch.
  destruct (isTable L && isTable R).
  - destruct (compareTableContent (element L) (element R)) as [[|]|e];
      cbn [bind]; intros [= <-].
    + exists none, None, None. split; [reflexivity | left; reflexivity].
    + exists modified, None, None. split; [reflexivity | right; reflexivity].
  - destruct (isImage L && isImage R).
    + destruct (compareImageContent (element L) (element R)) as [[|]|e];
        cbn [bind]; intros [= <-].
      * exists none, None, None. split; [reflexivity | left; reflexivity].
      * exists modified, None, None. split; [reflexivity | right; reflexivity].
    + destruct (areTextsEqual (text L) (text R)).
      * intros [= <-]. exists none, None, None.
        split; [reflexivity | left; reflexivity].
      * destruct (performWordLevelDiff (html L) (html R)) as [hl|e];
          cbn [bind]; intros [= <-].
        exists modified, (Some (fst hl)), (Some (snd hl)).
        split; [reflexivity | right; reflexivity].
Qed.

Lemma classify_Ok (leftLines rightLines : list line) (st st' : cstate)
    (d : decision) :
  wellShaped leftLines rightLines d ->
  classify leftLines rightLines st d = Ok st' ->
  exists p q, stepOutcome leftLines rightLines d st st' p q.
Proof.
  unfold wellShaped, classify, stepOutcome.
  destruct d as [[i|] [j|] []]; cbn [type leftIndex rightIndex lineAt];
    try contradiction.
  - intros [Hi Hj].
    destruct (nth_error_in_range leftLines i Hi) as [L HL].
    destruct (nth_error_in_range rightLines j Hj) as [R HR].
    rewrite HL, HR. intros H.
    apply classifyMatch_Ok in H. destruct H as (h & phl & phr & -> & Hh).
    exists (spread L h phl), (spread R h phr).
    unfold originals, linesAt, leftRefs, rightRefs.
    cbn [flat_map leftIndex rightIndex app push leftProcessed rightProcessed
           st_additions st_deletions].
    rewrite !original_spread, HL, HR.
    destruct Hh as [-> | ->]; cbn; repeat split; reflexivity.
  - intros Hi.
    destruct (nth_error_in_range leftLines i Hi) as [L HL].
    rewrite HL. intros [= <-].
    exists (spread L removed None), (placeholder empty_space_removed L).
    unfold originals, linesAt, leftRefs, rightRefs.
    cbn [flat_map leftIndex rightIndex app push leftProcessed rightProcessed
           st_additions st_deletions].
    rewrite original_spread, HL. cbn. repeat split; reflexivity.
  - intros Hj.
    destruct (nth_error_in_range rightLines j Hj) as [R HR].
    rewrite HR. intros [= <-].
    exists (placeholder empty_space_added R), (spread R added None).
    unfold originals, linesAt, leftRefs, rightRefs.
    cbn [flat_map leftIndex rightIndex app push leftProcessed rightProcessed
           st_additions st_deletions].
    rewrite original_spread, HR. cbn. repeat split; reflexivity.
Qed.

Lemma originals_app (a b : list processed) :
  originals (a ++ b) = originals a ++ originals b.
Proof. unfold originals. apply flat_map_app. Qed.

Lemma linesAt_app (ls : list line) (a b : list nat) :
  linesAt ls (a ++ b) = linesAt ls a ++ linesAt ls b.
Proof. unfold linesAt. apply flat_map_app. Qed.

Lemma classifyAll_Ok (leftLines rightLines : list line) (ds : list decision) :
  Forall (wellShaped leftLines rightLines) ds ->
  forall st st',
    classifyAll leftLines rightLines st ds = Ok st' ->
    exists ps qs, runOutcome leftLines rightLines ds st st' ps qs.
Proof.
  induction 1 as [|d ds Hd _ IH]; intros st st'.
  - cbn. intros [= <-]. exists [], []. unfold runOutcome.
    rewrite !app_nil_r. cbn. repeat split; try reflexivity; try lia.
    constructor.
  - cbn [classifyAll].
    destruct (classify leftLines rightLines st d) as [st1|e] eqn:E;
      cbn [bind]; [|discriminate].
    intros Hrest.
    destruct (classify_Ok _ _ _ _ _ Hd E)
      as (p & q & Hlp & Hrp & Hop & Hoq & Hpair & Ha & Hd' & Hbal).
    destruct (IH _ _ Hrest)
      as (ps & qs & Hlps & Hrps & Hnp & Hnq & Hops & Hoqs & Hpairs & Has & Hds
          & Hbals).
    exists (p :: ps), (q :: qs). unfold runOutcome.
    change (d :: ds) with ([d] ++ ds).
    rewrite leftRefs_app, rightRefs_app, !linesAt_app, !length_app.
    change (p :: ps) with ([p] ++ ps). change (q :: qs) with ([q] ++ qs).
    rewrite !originals_app, !length_app.
    rewrite Hlps, Hrps, Hlp, Hrp, <- !app_assoc, Hop, Hoq, Hops, Hoqs.
    unfold additionsOf, deletionsOf in *. cbn [app map list_sum List.length].
    unfold list_sum in *. cbn [fold_right].
    repeat split; try reflexivity; try lia.
    constructor; assumption.
Qed.

Lemma linesAt_seq (ls : list line) (n : nat) :
  forall i, i + n <= List.length ls ->
            linesAt ls (seq i n) = firstn n (skipn i ls).
Proof.
  induction n as [|n IH]; intros i Hi; [reflexivity|].
  destruct (nth_error_in_range ls i) as [l Hl]; [lia|].
  cbn [seq]. change (i :: seq (S i) n) with ([i] ++ seq (S i) n).
  rewrite linesAt_app, IH by lia.
  rewrite (skipn_nth_error _ _ _ Hl). cbn [firstn].
  unfold linesAt. cbn [flat_map]. rewrite Hl. reflexivity.
Qed.

Lemma linesAt_all (ls : list line) : linesAt ls (seq 0 (List.length ls)) = ls.
Proof. rewrite linesAt_seq by lia. cbn [skipn]. apply firstn_all. Qed.

(** The outcome of a successful comparison, read off its alignment. *)
Lemma performLineMutualComparison_Ok (leftLines rightLines : list line)
    (lp rp : list processed) (s : summary) :
  performLineMutualComparison leftLines rightLines = Ok (lp, rp, s) ->
  runOutcome leftLines rightLines (createOptimalAlignment leftLines rightLines)
    (mkState [] [] 0 0) (mkState lp rp (additions s) (deletions s)) lp rp /\
  changes s = additions s + deletions s.
Proof.
  unfold performLineMutualComparison.
  destruct (classifyAll leftLines rightLines (mkState [] [] 0 0)
              (createOptimalAlignment leftLines rightLines)) as [st|e] eqn:E;
    cbn [bind]; [|discriminate].
  intros [= <- <- <-]. cbn [additions deletions changes].
  split; [|reflexivity].
  destruct (classifyAll_Ok _ _ _ (alignment_well_shaped_aux leftLines rightLines)
              _ _ E) as (ps & qs & H).
  unfold runOutcome in *. cbn [leftProcessed rightProcessed st_additions
    st_deletions app Nat.add] in *.
  destruct H as (Hl & Hr & H). rewrite Hl, Hr. tauto.
Qed.

(** X3. When the comparison succeeds, each output side, with its
    placeholders left out, is the input list of that side, block for block
    and in order; and the two sides have one entry per decision, so they
    have the same length. *)
Theorem mutual_comparison_keeps_every_block (leftLines rightLines : list line)
    (lp rp : list processed) (s : summary) :
  performLineMutualComparison leftLines rightLines = Ok (lp, rp, s) ->
  originals lp = leftLines /\
  originals rp = rightLines /\
  List.length lp = List.length (createOptimalAlignment leftLines rightLines) /\
  List.length rp = List.length lp.
Proof.
  intros H. apply performLineMutualComparison_Ok in H.
  destruct H as [(_ & _ & Hnp & Hnq & Hop & Hoq & _) _].
  destruct (createOptimalAlignment_refs leftLines rightLines) as [Hl Hr].
  rewrite Hl, linesAt_all in Hop. rewrite Hr, linesAt_all in Hoq.
  repeat split; try assumption. lia.
Qed.

(** X4. When the comparison succeeds, the two entries of every output row
    carry one of the tag pairs none/none, modified/modified,
    empty-space-added/added, removed/empty-space-removed; additions counts
    the right entries tagged added or modified, deletions the left entries
    tagged removed or modified, and changes is their sum. *)
Theorem summary_counts_the_tags (leftLines rightLines : list line)
    (lp rp : list processed) (s : summary) :
  performLineMutualComparison leftLines rightLines = Ok (lp, rp, s) ->
  Forall2 (fun p q => pairedHighlights (highlight p) (highlight q)) lp rp /\
  additions s = additionsOf rp /\
  deletions s = deletionsOf lp /\
  changes s = additions s + deletions s.
Proof.
  intros H. apply performLineMutualComparison_Ok in H.
  destruct H as [(_ & _ & _ & _ & _ & _ & Hpair & Ha & Hd & _) Hc].
  cbn [st_additions st_deletions Nat.add] in Ha, Hd.
  repeat split; assumption.
Qed.

(** X5. When the comparison succeeds, additions and deletions differ by
    the difference of the two block counts: additions plus the number of
    left blocks is deletions plus the number of right blocks. *)
Theorem summary_net_change (leftLines rightLines : list line)
    (lp rp : list processed) (s : summary) :
  performLineMutualComparison leftLines rightLines = Ok (lp, rp, s) ->
  additions s + List.length leftLines = deletions s + List.length rightLines.
Proof.
  intros H. apply performLineMutualComparison_Ok in H.
  destruct H as [(_ & _ & _ & _ & _ & _ & _ & Ha & Hd & Hbal) _].
  cbn [st_additions st_deletions Nat.add] in Ha, Hd.
  destruct (createOptimalAlignment_refs leftLines rightLines) as [Hl Hr].
  rewrite Hl, Hr, !length_seq in Hbal. lia.
Qed.

Lemma compareTableContent_no_throw (a b : jsval) :
  (falsy a = true \/ exists e, a = JElem e) ->
  (falsy b = true \/ exists e, b = JElem e) ->
  exists r, compareTableContent a b = Ok r.
Proof.
  unfold compareTableContent.
  intros [Ha | [ea ->]] [Hb | [eb ->]]; try rewrite Ha; try rewrite Hb;
    rewrite ?orb_true_r; cbn; eauto.
  destruct (negb _); eauto.
Qed.

Lemma compareImageContent_no_throw (a b : jsval) :
  (falsy a = true \/ exists e, a = JElem e) ->
  (falsy b = true \/ exists e, b = JElem e) ->
  exists r, compareImageContent a b = Ok r.
Proof.
  unfold compareImageContent.
  intros [Ha | [ea ->]] [Hb | [eb ->]]; try rewrite Ha; try rewrite Hb;
    rewrite ?orb_true_r; cbn; eauto.
Qed.

Lemma classifyMatch_Throw (st : cstate) (L R : line) (e : js_error) :
  elementOrNull L -> elementOrNull R ->
  classifyMatch st L R = Throw e ->
  performWordLevelDiff (html L) (html R) = Throw e.
Proof.
  intros HL HR. unfold classifyMatch.
  destruct (compareTableContent_no_throw _ _ HL HR) as [rt ->].
  destruct (compareImageContent_no_throw _ _ HL HR) as [ri ->].
  cbn [bind].
  destruct (isTable L && isTable R); [destruct rt; discriminate|].
  destruct (isImage L && isImage R); [destruct ri; discriminate|].
  destruct (areTextsEqual (text L) (text R)); [discriminate|].
  destruct (performWordLevelDiff (html L) (html R)); cbn [bind];
    [discriminate | intros [= ->]; reflexivity].
Qed.

Lemma classifyAll_Throw (leftLines rightLines : list line) (ds : list decision)
    (e : js_error) :
  Forall elementOrNull leftLines -> Forall elementOrNull rightLines ->
  Forall (wellShaped leftLines rightLines) ds ->
  forall st,
    classifyAll leftLines rightLines st ds = Throw e ->
    exists L R, In L leftLines /\ In R rightLines /\
                performWordLevelDiff (html L) (html R) = Throw e.
Proof.
  intros HLs HRs. induction 1 as [|d ds Hd _ IH]; intros st; [discriminate|].
  cbn [classifyAll].
  destruct (classify leftLines rightLines st d) as [st1|e1] eqn:E; cbn [bind].
  - apply IH.
  - intros [= ->]. revert E. unfold wellShaped, classify in *.
    destruct d as [[i|] [j|] []]; cbn [type leftIndex rightIndex lineAt] in *;
      try contradiction.
    + destruct Hd as [Hi Hj].
      destruct (nth_error_in_range leftLines i Hi) as [L HL].
      destruct (nth_error_in_range rightLines j Hj) as [R HR].
      rewrite HL, HR. intros E.
      apply nth_error_In in HL. apply nth_error_In in HR.
      exists L, R. split; [exact HL|]. split; [exact HR|].
      eapply classifyMatch_Throw; [| |exact E].
      * exact (proj1 (Forall_forall _ _) HLs L HL).
      * exact (proj1 (Forall_forall _ _) HRs R HR).
    + destruct (nth_error_in_range leftLines i Hd) as [L HL].
      rewrite HL. discriminate.
    + destruct (nth_error_in_range rightLines j Hd) as [R HR].
      rewrite HR. discriminate.
Qed.

(** X6. On lines whose element is a DOM element or null, the comparison
    can fail only where the word-level diff fails: an exception it throws
    was thrown by the word-level diff on the HTML of a left and a right
    block. *)
Theorem comparison_fails_only_in_the_word_diff
    (leftLines rightLines : list line) (e : js_error) :
  Forall elementOrNull leftLines -> Forall elementOrNull rightLines ->
  performLineMutualComparison leftLines rightLines = Throw e ->
  exists L R, In L leftLines /\ In R rightLines /\
              performWordLevelDiff (html L) (html R) = Throw e.
Proof.
  intros HLs HRs. unfold performLineMutualComparison.
  destruct (classifyAll leftLines rightLines (mkState [] [] 0 0)
              (createOptimalAlignment leftLines rightLines)) as [st|e1] eqn:E;
    cbn [bind]; [discriminate|].
  intros [= ->].
  eapply classifyAll_Throw; try eassumption.
  apply alignment_well_shaped_aux.
Qed.

(** ** A third run of the whole comparison: pure deletion *)

Lemma align_step_empty_right (leftLines : list line) (i : nat) (l : line) :
  nth_error leftLines i = Some l ->
  align_step leftLines [] i 0 = Some (DrainDeletion, deletionAt i, (S i, 0)).
Proof.
  intros H. unfold align_step. rewrite H.
  assert (Hi : (i <? List.length leftLines) = true)
    by (apply Nat.ltb_lt; apply nth_error_Some; congruence).
  rewrite Hi. reflexivity.
Qed.

Lemma align_loop_empty_right (leftLines : list line) (fuel : nat) :
  forall i acc,
    i <= List.length leftLines -> List.length leftLines - i <= fuel ->
    align_loop leftLines [] fuel i 0 acc
    = Some (acc ++ map deletionAt (seq i (List.length leftLines - i))).
Proof.
  induction fuel as [|fuel IH]; intros i acc Hi Hfuel.
  - cbn. rewrite align_step_end by (cbn; lia).
    replace (List.length leftLines - i) with 0 by lia.
    cbn. rewrite app_nil_r. reflexivity.
  - cbn [align_loop].
    destruct (Nat.eq_dec i (List.length leftLines)) as [->|Hne].
    + rewrite align_step_end by (cbn; lia).
      rewrite Nat.sub_diag. cbn. rewrite app_nil_r. reflexivity.
    + destruct (nth_error_in_range leftLines i) as [l Hl]; [lia|].
      rewrite (align_step_empty_right _ _ _ Hl).
      rewrite (seq_from i) by lia. rewrite IH by lia. cbn [map].
      rewrite <- app_assoc. reflexivity.
Qed.

Lemma classifyAll_deletions (leftLines rightLines : list line) (n : nat) :
  forall i st,
    i + n <= List.length leftLines ->
    classifyAll leftLines rightLines st (map deletionAt (seq i n))
    = Ok {| leftProcessed :=
              leftProcessed st
              ++ map (fun l => spread l removed None) (firstn n (skipn i leftLines));
            rightProcessed :=
              rightProcessed st
              ++ map (placeholder empty_space_removed) (firstn n (skipn i leftLines));
            st_additions := st_additions st;
            st_deletions := st_deletions st + n |}.
Proof.
  induction n as [|n IH]; intros i st Hn.
  - cbn. rewrite !app_nil_r, Nat.add_0_r. destruct st; reflexivity.
  - cbn [seq map classifyAll].
    destruct (nth_error_in_range leftLines i) as [l Hl]; [lia|].
    unfold classify at 1. cbn [deletionAt type rightIndex leftIndex lineAt].
    rewrite Hl. cbn [bind]. rewrite IH by lia.
    rewrite (skipn_nth_error _ _ _ Hl). cbn [firstn map push leftProcessed
      rightProcessed st_additions st_deletions].
    rewrite <- !app_assoc. cbn [app].
    f_equal. f_equal; lia.
Qed.

(** X7. Against an empty right list the alignment is one deletion per left
    block, in order; the left output is the left blocks tagged removed,
    the right output one removed-placeholder per left block carrying its
    tag name, flags and text; the summary counts no addition and
    [length leftLines] deletions and changes. *)
Theorem pure_deletion (leftLines : list line) :
  createOptimalAlignment leftLines []
  = map deletionAt (seq 0 (List.length leftLines)) /\
  performLineMutualComparison leftLines []
  = Ok (map (fun l => spread l removed None) leftLines,
        map (placeholder empty_space_removed) leftLines,
        {| additions := 0;
           deletions := List.length leftLines;
           changes := List.length leftLines |}).
Proof.
  assert (H : createOptimalAlignment leftLines []
              = map deletionAt (seq 0 (List.length leftLines))).
  { unfold createOptimalAlignment.
    rewrite align_loop_empty_right by (cbn; lia).
    rewrite Nat.sub_0_r. reflexivity. }
  split; [exact H|].
  unfold performLineMutualComparison. rewrite H.
  rewrite classifyAll_deletions by (cbn; lia).
  cbn [bind leftProcessed rightProcessed st_additions st_deletions
         skipn app Nat.add].
  rewrite firstn_all. reflexivity.
Qed.

(** ** Properties of the character-level comparison *)

Lemma compareDocuments_fold (diffs : list change) :
  forall leftD rightD adds dels,
    fold_left compareDocuments_step diffs (leftD, rightD, adds, dels)
    = (leftD ++ flat_map leftEntry diffs,
       rightD ++ flat_map rightEntry diffs,
       adds + List.length (entriesOfType "insert" (flat_map rightEntry diffs)),
       dels + List.length (entriesOfType "delete" (flat_map leftEntry diffs))).
Proof.
  induction diffs as [|c rest IH]; intros leftD rightD adds dels.
  - cbn. rewrite !app_nil_r, !Nat.add_0_r. reflexivity.
  - cbn [fold_left flat_map]. unfold compareDocuments_step at 2.
    unfold entriesOfType in *. rewrite !filter_app, !length_app.
    unfold leftEntry at 1 3, rightEntry at 1 3.
    destruct (ch_added c); [|destruct (ch_removed c)];
      rewrite IH; cbn [app filter entry_type String.eqb Ascii.eqb Bool.eqb
                         List.length];
      rewrite <- ?app_assoc; cbn [app]; f_equal; try (f_equal; lia); lia.
Qed.

Lemma compareDocuments_eq (diffChars : string -> string -> list change)
    (leftText rightText : string) :
  compareDocuments diffChars leftText rightText
  = let diffs := diffChars leftText rightText in
    let adds := List.length (entriesOfType "insert" (flat_map rightEntry diffs)) in
    let dels := List.length (entriesOfType "delete" (flat_map leftEntry diffs)) in
    {| tc_leftDiffs := flat_map leftEntry diffs;
       tc_rightDiffs := flat_map rightEntry diffs;
       tc_summary :=
         {| additions := adds; deletions := dels; changes := adds + dels |} |}.
Proof.
  unfold compareDocuments. cbv zeta. rewrite compareDocuments_fold. reflexivity.
Qed.

Lemma entriesOfType_flat_map (t : string) (f : change -> list diff_entry)
    (diffs : list change) :
  entriesOfType t (flat_map f diffs)
  = flat_map (fun c => entriesOfType t (f c)) diffs.
Proof.
  unfold entriesOfType. induction diffs as [|c rest IH]; [reflexivity|].
  cbn [flat_map]. rewrite filter_app, IH. reflexivity.
Qed.

(** X14. In the result of [compareDocuments] the left list has no insert
    entry and the right list no delete entry; the two lists have the same
    equal entries in the same order; additions counts the insert entries
    of the right list, deletions the delete entries of the left list, and
    changes is their sum. *)
Theorem compareDocuments_sides_and_counts
    (diffChars : string -> string -> list change) (leftText rightText : string) :
  let out := compareDocuments diffChars leftText rightText in
  entriesOfType "insert" (tc_leftDiffs out) = [] /\
  entriesOfType "delete" (tc_rightDiffs out) = [] /\
  entriesOfType "equal" (tc_leftDiffs out)
  = entriesOfType "equal" (tc_rightDiffs out) /\
  additions (tc_summary out)
  = List.length (entriesOfType "insert" (tc_rightDiffs out)) /\
  deletions (tc_summary out)
  = List.length (entriesOfType "delete" (tc_leftDiffs out)) /\
  changes (tc_summary out)
  = additions (tc_summary out) + deletions (tc_summary out).
Proof.
  cbv zeta. rewrite compareDocuments_eq. cbv zeta.
  cbn [tc_leftDiffs tc_rightDiffs tc_summary additions deletions changes].
  rewrite !entriesOfType_flat_map.
  repeat split; try reflexivity.
  - induction (diffChars leftText rightText) as [|c rest IH]; [reflexivity|].
    cbn [flat_map]. rewrite IH. unfold leftEntry.
    destruct (ch_added c), (ch_removed c); reflexivity.
  - induction (diffChars leftText rightText) as [|c rest IH]; [reflexivity|].
    cbn [flat_map]. rewrite IH. unfold rightEntry.
    destruct (ch_added c), (ch_removed c); reflexivity.
  - induction (diffChars leftText rightText) as [|c rest IH]; [reflexivity|].
    cbn [flat_map]. rewrite IH. unfold leftEntry, rightEntry.
    destruct (ch_added c), (ch_removed c); reflexivity.
Qed.

Lemma concat_empty_cons (x : string) (xs : list string) :
  String.concat "" (x :: xs) = (x ++ String.concat "" xs)%string.
Proof.
  destruct xs as [|y ys]; cbn; [|reflexivity].
  induction x as [|c x IH]; cbn; [reflexivity | rewrite <- IH; reflexivity].
Qed.

Lemma render_leftEntries (diffs : list change) :
  renderHtmlDifferences (flat_map leftEntry diffs) = leftOfChanges diffs.
Proof.
  unfold renderHtmlDifferences, leftOfChanges.
  induction diffs as [|c rest IH]; [reflexivity|].
  cbn [flat_map filter]. unfold leftEntry at 1.
  destruct (ch_added c); cbn [negb app]; [exact IH|].
  destruct (ch_removed c); cbn [app map content];
    rewrite !concat_empty_cons, IH; reflexivity.
Qed.

Lemma render_rightEntries (diffs : list change) :
  Forall (fun c => ch_added c && ch_removed c = false) diffs ->
  renderHtmlDifferences (flat_map rightEntry diffs) = rightOfChanges diffs.
Proof.
  unfold renderHtmlDifferences, rightOfChanges.
  induction 1 as [|c rest Hc _ IH]; [reflexivity|].
  cbn [flat_map filter]. unfold rightEntry at 1.
  destruct (ch_added c), (ch_removed c); cbn [negb app map content] in *;
    try discriminate; rewrite ?concat_empty_cons, IH; reflexivity.
Qed.

(** X15. When the parts of the character diff spell the two texts (the
    parts not added spell the left text, the parts not removed the right
    text, and no part is both), rendering the left list of
    [compareDocuments] gives back the left text and rendering the right
    list gives back the right text. *)
Theorem compareDocuments_renders_back
    (diffChars : string -> string -> list change) (leftText rightText : string) :
  Forall (fun c => ch_added c && ch_removed c = false)
    (diffChars leftText rightText) ->
  leftOfChanges (diffChars leftText rightText) = leftText ->
  rightOfChanges (diffChars leftText rightText) = rightText ->
  renderHtmlDifferences
    (tc_leftDiffs (compareDocuments diffChars leftText rightText)) = leftText /\
  renderHtmlDifferences
    (tc_rightDiffs (compareDocuments diffChars leftText rightText)) = rightText.
Proof.
  intros Hflags Hl Hr. rewrite compareDocuments_eq. cbv zeta.
  cbn [tc_leftDiffs tc_rightDiffs].
  rewrite render_leftEntries, (render_rightEntries _ Hflags). split; assumption.
Qed.

(** X16. [compareHtmlDocuments] always resolves with one [equal] entry on
    each side, so rendering a side gives that entry's content; when the
    [try] block throws, or the two plain texts are equal up to white space
    around them, rendering the left side gives back the left input HTML
    and rendering the right side the right input HTML. *)
Theorem compareHtmlDocuments_renders_one_block
    (div : Type)
    (extractPlainText : string -> result string)
    (htmlToDiv : string -> result div)
    (extractDocumentLines : div -> result (list line))
    (applyProcessedLinesToDiv : div -> list processed -> result div)
    (innerHTML : div -> string)
    (generateSimpleDetailedReport : list line -> list line -> detailed_report)
    (leftHtml rightHtml : string) :
  let run :=
    compareHtmlDocuments div extractPlainText htmlToDiv extractDocumentLines
      applyProcessedLinesToDiv innerHTML generateSimpleDetailedReport
      leftHtml rightHtml in
  let body :=
    tryBlock div extractPlainText htmlToDiv extractDocumentLines
      applyProcessedLinesToDiv innerHTML generateSimpleDetailedReport
      leftHtml rightHtml in
  exists v leftContent rightContent,
    run = Resolved v /\
    leftDiffs v = [mkEntry "equal" leftContent] /\
    rightDiffs v = [mkEntry "equal" rightContent] /\
    renderHtmlDifferences (leftDiffs v) = leftContent /\
    renderHtmlDifferences (rightDiffs v) = rightContent /\
    ((exists e, body = Throw e) \/
     (exists lt rt, extractPlainText leftHtml = Ok lt /\
                    extractPlainText rightHtml = Ok rt /\
                    trim lt = trim rt) ->
     leftContent = leftHtml /\ rightContent = rightHtml).
Proof.
  intros run body. unfold run, compareHtmlDocuments. fold body.
  destruct body as [v|e] eqn:E.
  - revert E. unfold body, tryBlock.
    destruct (extractPlainText leftHtml) as [lt|el]; [|discriminate].
    destruct (extractPlainText rightHtml) as [rt|er]; [|discriminate].
    cbn [bind]. destruct (String.eqb (trim lt) (trim rt)) eqn:Eq.
    + intros [= <-]. exists (unchangedResult leftHtml rightHtml), leftHtml, rightHtml.
      repeat split; reflexivity.
    + apply String.eqb_neq in Eq. unfold performMutualComparison.
      destruct (htmlToDiv leftHtml) as [ld|]; [|discriminate].
      destruct (htmlToDiv rightHtml) as [rd|]; [|discriminate]. cbn [bind].
      destruct (extractDocumentLines ld) as [ll|]; [|discriminate].
      destruct (extractDocumentLines rd) as [rl|]; [|discriminate]. cbn [bind].
      destruct (performLineMutualComparison ll rl) as [[[lp rp] s]|];
        [|discriminate]. cbn [bind].
      destruct (applyProcessedLinesToDiv ld lp) as [ld'|]; [|discriminate].
      destruct (applyProcessedLinesToDiv rd rp) as [rd'|]; [|discriminate].
      cbn [bind]. intros [= <-].
      do 3 eexists. split; [reflexivity|].
      cbn [leftDiffs rightDiffs].
      do 4 (split; [reflexivity|]).
      intros [[e He] | (lt' & rt' & Hl & Hr & Ht)]; [discriminate He|].
      injection Hl as <-. injection Hr as <-. contradiction.
  - exists (unchangedResult leftHtml rightHtml), leftHtml, rightHtml.
    repeat split; reflexivity.
Qed.

(** ** Properties of the detailed report and of the word-level diff *)

Section RenderingProperties.

Variable escapeHtml : string -> result string.
Variable extractPlainText : string -> result string.
Variable diff_cleanupSemantic : list (Z * string) -> list (Z * string).

(** The DOM calls do not throw. *)
Hypothesis escapeHtml_total : forall s, exists h, escapeHtml s = Ok h.
Hypothesis extractPlainText_total : forall s, exists t, extractPlainText s = Ok t.

Lemma mapResult_total {A B : Type} (f : A -> result B) (l : list A) :
  (forall x, exists y, f x = Ok y) -> exists ys, mapResult f l = Ok ys.
Proof.
  intros Hf. induction l as [|x rest [ys IH]]; [eexists; reflexivity|].
  cbn. destruct (Hf x) as [y ->]. rewrite IH. eexists; reflexivity.
Qed.

Lemma highlightSpan_total (s : side) (diff : Z * string) :
  exists piece, highlightSpan escapeHtml s diff = Ok piece.
Proof.
  destruct diff as [op t]. unfold highlightSpan.
  destruct (escapeHtml_total t) as [h Hh].
  destruct (escapeHtml_total (substring 0 20 t)) as [h' Hh'].
  rewrite Hh, Hh'. cbn [bind].
  destruct (op =? 0)%Z; [eauto|].
  destruct (op =? 1)%Z; [destruct s; eauto|].
  destruct (op =? -1)%Z; [destruct s; eauto | eauto].
Qed.

Lemma applyDiffHighlighting_total (diffs : list (Z * string)) (s : side) :
  exists out, applyDiffHighlighting escapeHtml diffs s = Ok out.
Proof.
  unfold applyDiffHighlighting. generalize EmptyString.
  induction diffs as [|diff rest IH]; intros acc; [eexists; reflexivity|].
  cbn [applyDiffHighlighting_loop].
  destruct (highlightSpan_total s diff) as [piece ->]. cbn [bind]. apply IH.
Qed.

Lemma wordLevelDiff_total (leftHtml rightHtml : string) :
  exists out,
    wordLevelDiff escapeHtml extractPlainText diff_cleanupSemantic
      leftHtml rightHtml = Ok out.
Proof.
  unfold wordLevelDiff.
  destruct (extractPlainText_total leftHtml) as [lt ->].
  destruct (extractPlainText_total rightHtml) as [rt ->]. cbn [bind].
  destruct (applyDiffHighlighting_total
              (diff_cleanupSemantic (diff_main lt rt)) LeftSide) as [l ->].
  destruct (applyDiffHighlighting_total
              (diff_cleanupSemantic (diff_main lt rt)) RightSide) as [r ->].
  cbn [bind]. eexists; reflexivity.
Qed.

Lemma createInlineDiff_total (leftText rightText : string) :
  exists h, createInlineDiff escapeHtml diff_cleanupSemantic leftText rightText = Ok h.
Proof.
  unfold createInlineDiff.
  match goal with
  | |- context [mapResult ?f ?l] =>
      destruct (mapResult_total f l) as [pieces ->]
  end.
  - intros [op t]. cbn [fst snd]. destruct (escapeHtml_total t) as [h ->].
    cbn [bind]. destruct (op =? 1)%Z; [eauto|]. destruct (op =? -1)%Z; eauto.
  - cbn [bind]. eexists; reflexivity.
Qed.

Lemma reportLineAt_total (leftLines rightLines : list line) (i : nat) :
  i < Nat.max (List.length leftLines) (List.length rightLines) ->
  exists ln,
    reportLineAt escapeHtml diff_cleanupSemantic leftLines rightLines i = Ok [ln]
    /\ reportedAt leftLines rightLines i ln.
Proof.
  intros Hi. unfold reportLineAt, reportedAt, statusAt.
  destruct (nth_error leftLines i) as [l|] eqn:El;
    destruct (nth_error rightLines i) as [r|] eqn:Er.
  all: try (assert (Hl : (i <? List.length leftLines) = true)
              by (apply Nat.ltb_lt; apply nth_error_Some; congruence)).
  all: try (assert (Hr : (i <? List.length rightLines) = true)
              by (apply Nat.ltb_lt; apply nth_error_Some; congruence)).
  all: try (assert (Hl : (i <? List.length leftLines) = false)
              by (apply Nat.ltb_ge; apply nth_error_None; exact El)).
  all: try (assert (Hr : (i <? List.length rightLines) = false)
              by (apply Nat.ltb_ge; apply nth_error_None; exact Er)).
  all: rewrite Hl, Hr.
  - destruct (areTextsEqual (text l) (text r)).
    + destruct (escapeHtml_total (text l)) as [h ->]. cbn [bind].
      eexists. split; [reflexivity|]. cbn. repeat split; reflexivity.
    + destruct (createInlineDiff_total (text l) (text r)) as [h ->]. cbn [bind].
      eexists. split; [reflexivity|]. cbn. repeat split; reflexivity.
  - destruct (escapeHtml_total (text l)) as [h ->]. cbn [bind].
    eexists. split; [reflexivity|]. cbn. repeat split; reflexivity.
  - destruct (escapeHtml_total (text r)) as [h ->]. cbn [bind].
    eexists. split; [reflexivity|]. cbn. repeat split; reflexivity.
  - apply Nat.ltb_ge in Hl, Hr. lia.
Qed.

Lemma reportLoop_total (leftLines rightLines : list line) (count : nat) :
  forall i acc,
    i + count <= Nat.max (List.length leftLines) (List.length rightLines) ->
    exists new,
      reportLoop escapeHtml diff_cleanupSemantic leftLines rightLines count i acc
      = Ok (acc ++ new) /\
      List.length new = count /\
      forall k ln, nth_error new k = Some ln ->
                   reportedAt leftLines rightLines (i + k) ln.
Proof.
  induction count as [|count IH]; intros i acc Hi.
  - exists []. cbn. rewrite app_nil_r.
    split; [reflexivity|]. split; [reflexivity|].
    intros [|k] ln H; discriminate H.
  - cbn [reportLoop].
    destruct (reportLineAt_total leftLines rightLines i) as (ln & -> & Hln);
      [lia|]. cbn [bind].
    destruct (IH (S i) (acc ++ [ln])) as (new & -> & Hlen & Hnew); [lia|].
    exists (ln :: new). rewrite <- app_assoc.
    split; [reflexivity|]. split; [cbn; lia|].
    intros [|k] ln' H; cbn in H.
    + injection H as <-. rewrite Nat.add_0_r. exact Hln.
    + replace (i + S k) with (S i + k) by lia. apply Hnew. exact H.
Qed.

(** X17. When the DOM calls do not throw, the detailed report has one line
    per position up to the longer of the two lists, in order; line [i]
    carries the status of position [i] (UNCHANGED or MODIFIED where both
    lists have a line, REMOVED where only the left has, ADDED where only
    the right has) and the one-based line number on each side that has the
    line; the tables and images of the report are empty. *)
Theorem report_is_positional (leftLines rightLines : list line) :
  let rep :=
    generateSimpleDetailedReport escapeHtml diff_cleanupSemantic
      leftLines rightLines in
  List.length (lines rep)
  = Nat.max (List.length leftLines) (List.length rightLines) /\
  tables rep = [] /\ images rep = [] /\
  forall i ln, nth_error (lines rep) i = Some ln ->
               reportedAt leftLines rightLines i ln.
Proof.
  cbv zeta. unfold generateSimpleDetailedReport.
  destruct (reportLoop_total leftLines rightLines
              (Nat.max (List.length leftLines) (List.length rightLines)) 0 [])
    as (new & -> & Hlen & Hnew); [lia|].
  cbn [app lines tables images].
  split; [exact Hlen|]. split; [reflexivity|]. split; [reflexivity|].
  exact Hnew.
Qed.

Lemma statusAt_shift (leftLines rightLines : list line) (i : nat) :
  statusAt leftLines rightLines (S i)
  = statusAt (tl leftLines) (tl rightLines) i.
Proof.
  unfold statusAt. destruct leftLines, rightLines; cbn [tl nth_error];
    destruct i; reflexivity.
Qed.

Lemma positionalStatuses_step (leftLines rightLines : list line) :
  0 < Nat.max (List.length leftLines) (List.length rightLines) ->
  positionalStatuses leftLines rightLines
  = statusAt leftLines rightLines 0
    :: positionalStatuses (tl leftLines) (tl rightLines).
Proof.
  intros H. unfold positionalStatuses.
  replace (Nat.max (List.length leftLines) (List.length rightLines))
    with (S (Nat.max (List.length (tl leftLines)) (List.length (tl rightLines))))
    by (destruct leftLines, rightLines; cbn in *; lia).
  cbn [seq map]. f_equal.
  rewrite <- seq_shift, map_map. apply map_ext. intros i. apply statusAt_shift.
Qed.

Lemma positionalStatuses_counts (leftLines : list line) :
  forall rightLines,
    count_occ string_dec (positionalStatuses leftLines rightLines) "REMOVED"
    = List.length leftLines - List.length rightLines /\
    count_occ string_dec (positionalStatuses leftLines rightLines) "ADDED"
    = List.length rightLines - List.length leftLines /\
    count_occ string_dec (positionalStatuses leftLines rightLines) "UNCHANGED"
    + count_occ string_dec (positionalStatuses leftLines rightLines) "MODIFIED"
    = Nat.min (List.length leftLines) (List.length rightLines).
Proof.
  induction leftLines as [|a l IH]; intros rightLines.
  - induction rightLines as [|b r IHr]; [cbn; repeat split; reflexivity|].
    rewrite positionalStatuses_step by (cbn; lia). cbn [tl].
    unfold statusAt. cbn [nth_error List.length].
    destruct IHr as (H1 & H2 & H3). cbn [List.length] in H1, H2, H3.
    cbn [count_occ].
    repeat match goal with
           | |- context [string_dec ?x ?y] =>
               destruct (string_dec x y); try discriminate; try congruence
           end.
    repeat split; lia.
  - destruct rightLines as [|b r];
      rewrite positionalStatuses_step by (cbn; lia); cbn [tl];
      unfold statusAt; cbn [nth_error List.length].
    + destruct (IH []) as (H1 & H2 & H3). cbn [List.length] in H1, H2, H3.
      cbn [count_occ].
      repeat match goal with
             | |- context [string_dec ?x ?y] =>
                 destruct (string_dec x y); try discriminate; try congruence
             end.
      repeat split; lia.
    + destruct (IH r) as (H1 & H2 & H3).
      destruct (areTextsEqual (text a) (text b)); cbn [count_occ];
        repeat match goal with
               | |- context [string_dec ?x ?y] =>
                   destruct (string_dec x y); try discriminate; try congruence
               end;
        repeat split; lia.
Qed.

Lemma report_statuses (leftLines rightLines : list line) :
  map status
    (lines (generateSimpleDetailedReport escapeHtml diff_cleanupSemantic
              leftLines rightLines))
  = positionalStatuses leftLines rightLines.
Proof.
  unfold generateSimpleDetailedReport.
  destruct (reportLoop_total leftLines rightLines
              (Nat.max (List.length leftLines) (List.length rightLines)) 0 [])
    as (new & -> & Hlen & Hnew); [lia|].
  cbn [app lines]. unfold positionalStatuses.
  apply nth_error_ext. intros n.
  rewrite !nth_error_map.
  destruct (nth_error new n) as [ln|] eqn:E.
  - assert (Hn : n < List.length new) by (apply nth_error_Some; congruence).
    rewrite nth_error_seq.
    destruct (Nat.ltb_spec n (Nat.max (List.length leftLines)
                                (List.length rightLines))) as [_|Hge]; [|lia].
    cbn. f_equal. apply (Hnew n ln E).
  - apply nth_error_None in E. rewrite nth_error_seq.
    destruct (Nat.ltb_spec n (Nat.max (List.length leftLines)
                                (List.length rightLines))) as [Hlt|_]; [lia|].
    reflexivity.
Qed.

(** X19. When the DOM calls do not throw, the detailed report has as many
    REMOVED lines as the left list is longer than the right, as many ADDED
    lines as the right list is longer than the left, and its UNCHANGED and
    MODIFIED lines together are as many as the shorter list has lines. *)
Theorem report_counts (leftLines rightLines : list line) :
  let statuses :=
    map status
      (lines (generateSimpleDetailedReport escapeHtml diff_cleanupSemantic
                leftLines rightLines)) in
  count_occ string_dec statuses "REMOVED"
  = List.length leftLines - List.length rightLines /\
  count_occ string_dec statuses "ADDED"
  = List.length rightLines - List.length leftLines /\
  count_occ string_dec statuses "UNCHANGED"
  + count_occ string_dec statuses "MODIFIED"
  = Nat.min (List.length leftLines) (List.length rightLines).
Proof.
  cbv zeta. rewrite report_statuses. apply positionalStatuses_counts.
Qed.

End RenderingProperties.

(** ** Properties of the positional variant *)

Lemma withoutOriginal_pushP (st : pstate) (l r : processed_positional)
    (da dd : nat) :
  withoutOriginal (pushP st l r da dd)
  = push (withoutOriginal st) (body l) (body r) da dd.
Proof.
  unfold withoutOriginal, pushP, push. cbn. rewrite !map_app. reflexivity.
Qed.

(** The branch for two lines is the [match] case of the aligned
    comparison. *)
Lemma classifyPair_positional_sim (st : pstate) (L R : line) :
  stateWithoutOriginal (classifyPair_positional st L R)
  = classifyMatch (withoutOriginal st) L R.
Proof.
  unfold classifyPair_positional, classifyMatch.
  destruct (isTable L && isTable R).
  - destruct (compareTableContent (element L) (element R)) as [[|]|e];
      cbn [bind stateWithoutOriginal]; rewrite ?withoutOriginal_pushP;
      reflexivity.
  - destruct (isImage L && isImage R).
    + destruct (compareImageContent (element L) (element R)) as [[|]|e];
        cbn [bind stateWithoutOriginal]; rewrite ?withoutOriginal_pushP;
        reflexivity.
    + destruct (areTextsEqual (text L) (text R)).
      * cbn [stateWithoutOriginal]. rewrite withoutOriginal_pushP. reflexivity.
      * destruct (performWordLevelDiff (html L) (html R)) as [hl|e];
          cbn [bind stateWithoutOriginal]; rewrite ?withoutOriginal_pushP;
          reflexivity.
Qed.

Lemma skipn_past {A : Type} (l : list A) (i : nat) :
  nth_error l i = None -> skipn i l = [] /\ skipn (S i) l = [].
Proof.
  intros H. apply nth_error_None in H.
  split; apply skipn_all2; lia.
Qed.

(** The loop of the variant is the classifier of the aligned comparison
    run over the positional alignment. *)
Lemma positional_loop_sim (leftLines rightLines : list line) (count : nat) :
  forall i st,
    i + count = Nat.max (List.length leftLines) (List.length rightLines) ->
    stateWithoutOriginal (positional_loop leftLines rightLines count i st)
    = classifyAll leftLines rightLines (withoutOriginal st)
        (positionalAlignment i (skipn i leftLines) (skipn i rightLines)).
Proof.
  induction count as [|count IH]; intros i st Hi.
  - rewrite !skipn_all2 by lia. reflexivity.
  - cbn [positional_loop]. unfold positional_step.
    destruct (nth_error leftLines i) as [L|] eqn:EL;
      destruct (nth_error rightLines i) as [R|] eqn:ER.
    + rewrite (skipn_nth_error _ _ _ EL), (skipn_nth_error _ _ _ ER).
      cbn [positionalAlignment classifyAll]. unfold classify at 1.
      cbn [matchAt type leftIndex rightIndex lineAt]. rewrite EL, ER.
      rewrite <- classifyPair_positional_sim.
      destruct (classifyPair_positional st L R) as [st'|e];
        cbn [bind stateWithoutOriginal]; [apply IH; lia | reflexivity].
    + rewrite (skipn_nth_error _ _ _ EL).
      destruct (skipn_past _ _ ER) as [-> Hr].
      cbn [positionalAlignment classifyAll bind]. unfold classify at 1.
      cbn [deletionAt type leftIndex rightIndex lineAt]. rewrite EL.
      cbn [bind]. rewrite IH by lia. rewrite Hr, withoutOriginal_pushP.
      reflexivity.
    + rewrite (skipn_nth_error _ _ _ ER).
      destruct (skipn_past _ _ EL) as [-> Hl].
      cbn [positionalAlignment List.length seq map classifyAll bind].
      unfold classify at 1.
      cbn [additionAt type leftIndex rightIndex lineAt]. rewrite ER.
      cbn [bind]. rewrite IH by lia. rewrite Hl, withoutOriginal_pushP.
      reflexivity.
    + apply nth_error_None in EL, ER. lia.
Qed.

Lemma positional_is_classifier (leftLines rightLines : list line) :
  resultWithoutOriginal
    (performLineMutualComparison_positional leftLines rightLines)
  = (st <- classifyAll leftLines rightLines (mkState [] [] 0 0)
             (positionalAlignment 0 leftLines rightLines) ;;
     Ok (leftProcessed st, rightProcessed st,
         {| additions := st_additions st;
            deletions := st_deletions st;
            changes := st_additions st + st_deletions st |})).
Proof.
  unfold performLineMutualComparison_positional. cbv zeta.
  pose proof (positional_loop_sim leftLines rightLines
                (Nat.max (List.length leftLines) (List.length rightLines)) 0
                (mkPState [] [] 0 0) eq_refl) as H.
  cbn [skipn] in H. change (withoutOriginal (mkPState [] [] 0 0))
    with (mkState [] [] 0 0) in H.
  rewrite <- H.
  destruct (positional_loop leftLines rightLines _ 0 (mkPState [] [] 0 0));
    reflexivity.
Qed.

Lemma positionalAlignment_refs (leftLines : list line) :
  forall rightLines i,
    leftRefs (positionalAlignment i leftLines rightLines)
    = seq i (List.length leftLines) /\
    rightRefs (positionalAlignment i leftLines rightLines)
    = seq i (List.length rightLines) /\
    List.length (positionalAlignment i leftLines rightLines)
    = Nat.max (List.length leftLines) (List.length rightLines).
Proof.
  induction leftLines as [|a l IH]; intros rightLines i.
  - cbn [positionalAlignment List.length seq]. rewrite length_map, length_seq.
    split; [|split; [|reflexivity]].
    + generalize i. induction (List.length rightLines) as [|n IHn]; intros k;
        [reflexivity | cbn; apply IHn].
    + generalize i. induction (List.length rightLines) as [|n IHn]; intros k;
        [reflexivity | cbn; f_equal; apply IHn].
  - destruct rightLines as [|b r]; cbn [positionalAlignment].
    + destruct (IH [] (S i)) as (H1 & H2 & H3).
      change (deletionAt i :: ?x) with ([deletionAt i] ++ x).
      rewrite leftRefs_app, rightRefs_app, H1, H2. cbn. rewrite H3.
      repeat split; try reflexivity. cbn. lia.
    + destruct (IH r (S i)) as (H1 & H2 & H3).
      change (matchAt i :: ?x) with ([matchAt i] ++ x).
      rewrite leftRefs_app, rightRefs_app, H1, H2. cbn. rewrite H3.
      repeat split; reflexivity.
Qed.

Lemma positionalAlignment_wellShaped (allLeft allRight : list line)
    (leftLines : list line) :
  forall rightLines i,
    List.length leftLines = 0
    \/ i + List.length leftLines <= List.length allLeft ->
    List.length rightLines = 0
    \/ i + List.length rightLines <= List.length allRight ->
    Forall (wellShaped allLeft allRight)
      (positionalAlignment i leftLines rightLines).
Proof.
  induction leftLines as [|a l IH]; intros rightLines i Hl Hr.
  - cbn [positionalAlignment]. clear Hl. revert i Hr.
    induction rightLines as [|b r IHr]; intros i Hr; [constructor|].
    cbn [List.length seq map] in *. constructor; [cbn; lia|].
    apply IHr; lia.
  - destruct rightLines as [|b r]; cbn [positionalAlignment List.length] in *;
      (constructor; [cbn; lia | apply IH; cbn [List.length]; lia]).
Qed.

(** X20. When the positional variant succeeds, its two output lists have
    one entry per position up to the longer input list; each side,
    without its placeholders, is the input list of that side; and
    additions plus the number of left lines is deletions plus the number
    of right lines. *)
Theorem positional_comparison_shape (leftLines rightLines : list line)
    (lp rp : list processed_positional) (s : summary) :
  performLineMutualComparison_positional leftLines rightLines = Ok (lp, rp, s) ->
  List.length lp = Nat.max (List.length leftLines) (List.length rightLines) /\
  List.length rp = Nat.max (List.length leftLines) (List.length rightLines) /\
  originals (map body lp) = leftLines /\
  originals (map body rp) = rightLines /\
  additions s + List.length leftLines = deletions s + List.length rightLines /\
  changes s = additions s + deletions s.
Proof.
  intros H.
  pose proof (positional_is_classifier leftLines rightLines) as Hsim.
  rewrite H in Hsim. cbn [resultWithoutOriginal] in Hsim.
  destruct (classifyAll leftLines rightLines (mkState [] [] 0 0)
              (positionalAlignment 0 leftLines rightLines)) as [st|e] eqn:E;
    cbn [bind] in Hsim; [|discriminate].
  injection Hsim as Hlp Hrp Hs.
  destruct (classifyAll_Ok _ _ _
              (positionalAlignment_wellShaped leftLines rightLines
                 leftLines rightLines 0 ltac:(right; lia) ltac:(right; lia))
              _ _ E)
    as (ps & qs & Hl & Hr & Hnp & Hnq & Hop & Hoq & _ & Ha & Hd & Hbal).
  destruct (positionalAlignment_refs leftLines rightLines 0) as (R1 & R2 & R3).
  cbn [leftProcessed rightProcessed st_additions st_deletions app Nat.add]
    in Hl, Hr, Ha, Hd.
  rewrite R1, linesAt_all in Hop. rewrite R2, linesAt_all in Hoq.
  rewrite R1, R2, !length_seq in Hbal. rewrite R3 in Hnp, Hnq.
  rewrite Hl in Hlp. rewrite Hr in Hrp. subst s. cbn [additions deletions changes].
  rewrite <- (length_map body lp), <- (length_map body rp), Hlp, Hrp.
  repeat split; try assumption; try reflexivity. lia.
Qed.

Lemma positional_agrees (leftLines rightLines : list line) :
  createOptimalAlignment leftLines rightLines
  = positionalAlignment 0 leftLines rightLines ->
  resultWithoutOriginal
    (performLineMutualComparison_positional leftLines rightLines)
  = performLineMutualComparison leftLines rightLines.
Proof.
  intros H. rewrite positional_is_classifier.
  unfold performLineMutualComparison. rewrite H. reflexivity.
Qed.

Lemma positionalAlignment_same (ls : list line) :
  forall i, positionalAlignment i ls ls = map matchAt (seq i (List.length ls)).
Proof.
  induction ls as [|a l IH]; intros i; [reflexivity|].
  cbn. rewrite IH. reflexivity.
Qed.

Lemma positionalAlignment_empty_right (ls : list line) :
  forall i, positionalAlignment i ls [] = map deletionAt (seq i (List.length ls)).
Proof.
  induction ls as [|a l IH]; intros i; [reflexivity|].
  cbn. rewrite IH. reflexivity.
Qed.

Lemma createOptimalAlignment_empty_right (leftLines : list line) :
  createOptimalAlignment leftLines []
  = map deletionAt (seq 0 (List.length leftLines)).
Proof.
  unfold createOptimalAlignment.
  rewrite align_loop_empty_right by (cbn; lia).
  rewrite Nat.sub_0_r. reflexivity.
Qed.

(** X21. The positional variant is the classifier of the aligned
    comparison run over the positional alignment, its [originalElement]
    keys left out; so where the alignment of the aligned comparison is the
    positional one, the two comparisons give the same result. *)
Theorem positional_variant_is_the_classifier
    (leftLines rightLines : list line) :
  resultWithoutOriginal
    (performLineMutualComparison_positional leftLines rightLines)
  = (st <- classifyAll leftLines rightLines (mkState [] [] 0 0)
             (positionalAlignment 0 leftLines rightLines) ;;
     Ok (leftProcessed st, rightProcessed st,
         {| additions := st_additions st;
            deletions := st_deletions st;
            changes := st_additions st + st_deletions st |})) /\
  (createOptimalAlignment leftLines rightLines
   = positionalAlignment 0 leftLines rightLines ->
   resultWithoutOriginal
     (performLineMutualComparison_positional leftLines rightLines)
   = performLineMutualComparison leftLines rightLines).
Proof.
  split; [apply positional_is_classifier | apply positional_agrees].
Qed.

(** X22. The positional variant and the aligned comparison give the same
    result, the [originalElement] keys left out, on a list against itself,
    on any list against the empty list and on the empty list against any
    list. *)
Theorem variants_agree_on_identity_and_pure_change (ls : list line) :
  resultWithoutOriginal (performLineMutualComparison_positional ls ls)
  = performLineMutualComparison ls ls /\
  resultWithoutOriginal (performLineMutualComparison_positional ls [])
  = performLineMutualComparison ls [] /\
  resultWithoutOriginal (performLineMutualComparison_positional [] ls)
  = performLineMutualComparison [] ls.
Proof.
  split; [|split]; apply positional_agrees.
  - rewrite createOptimalAlignment_same, positionalAlignment_same. reflexivity.
  - rewrite createOptimalAlignment_empty_right, positionalAlignment_empty_right.
    reflexivity.
  - rewrite createOptimalAlignment_empty_left. reflexivity.
Qed.

(** ** Leading blocks with equal texts *)

Lemma align_step_equal_texts (leftLines rightLines : list line) (i : nat)
    (l r : line) :
  nth_error leftLines i = Some l -> nth_error rightLines i = Some r ->
  areTextsEqual (text l) (text r) = true ->
  align_step leftLines rightLines i i
  = Some (DirectMatch, matchAt i, (S i, S i)).
Proof.
  intros Hl Hr Heq. unfold align_step. rewrite Hl, Hr.
  assert (Hi : (i <? List.length leftLines) = true)
    by (apply Nat.ltb_lt; apply nth_error_Some; congruence).
  rewrite Hi. cbn [orb]. unfold directTest. rewrite Heq, orb_true_r.
  reflexivity.
Qed.

Lemma align_loop_matches_equal_prefix (leftLines rightLines : list line)
    (k : nat) :
  k <= List.length leftLines -> k <= List.length rightLines ->
  (forall i l r, i < k -> nth_error leftLines i = Some l ->
                 nth_error rightLines i = Some r ->
                 areTextsEqual (text l) (text r) = true) ->
  forall n i fuel acc,
    i + n = k ->
    (List.length leftLines - i) + (List.length rightLines - i) <= fuel ->
    exists rest,
      align_loop leftLines rightLines fuel i i acc
      = Some (acc ++ map matchAt (seq i n) ++ rest).
Proof.
  intros Hkl Hkr Heq. induction n as [|n IH]; intros i fuel acc Hi Hfuel.
  - destruct (align_loop_covers leftLines rightLines fuel i i acc)
      as (ds & H & _); try lia.
    exists ds. exact H.
  - destruct (nth_error_in_range leftLines i) as [l Hl]; [lia|].
    destruct (nth_error_in_range rightLines i) as [r Hr]; [lia|].
    destruct fuel as [|fuel]; [lia|].
    cbn [align_loop].
    rewrite (align_step_equal_texts _ _ _ _ _ Hl Hr
               (Heq i l r ltac:(lia) Hl Hr)).
    destruct (IH (S i) fuel (acc ++ [matchAt i])) as [rest H]; try lia.
    exists rest. rewrite H. cbn [seq map]. rewrite <- app_assoc. reflexivity.
Qed.

(** X24. When the first [k] blocks of the two lists have pairwise equal
    normalized texts, the alignment starts with [k] matches that pair
    each of these blocks with the block at the same position. *)
Theorem equal_leading_blocks_match_in_place
    (leftLines rightLines : list line) (k : nat) :
  k <= List.length leftLines -> k <= List.length rightLines ->
  (forall i l r, i < k -> nth_error leftLines i = Some l ->
                 nth_error rightLines i = Some r ->
                 areTextsEqual (text l) (text r) = true) ->
  firstn k (createOptimalAlignment leftLines rightLines)
  = map matchAt (seq 0 k).
Proof.
  intros Hkl Hkr Heq.
  destruct (align_loop_matches_equal_prefix leftLines rightLines k Hkl Hkr Heq
              k 0 (List.length leftLines + List.length rightLines) [])
    as [rest H]; try lia.
  unfold createOptimalAlignment. rewrite H. cbn [app].
  rewrite firstn_app, length_map, length_seq, Nat.sub_diag.
  cbn [firstn]. rewrite app_nil_r.
  apply firstn_all2. rewrite length_map, length_seq. lia.
Qed.

End Comparison.

(** ** The reference oracle keeps the contract *)

Lemma commonPrefix_spec (a b : string) :
  let '(p, (ra, rb)) := commonPrefix a b in
  a = (p ++ ra)%string /\ b = (p ++ rb)%string.
Proof.
  revert b. induction a as [|x a IH]; intros b.
  - cbn. split; reflexivity.
  - destruct b as [|y b]; [cbn; split; reflexivity|].
    cbn [commonPrefix]. destruct (Ascii.eqb x y) eqn:E.
    + apply Ascii.eqb_eq in E. subst y.
      specialize (IH b). destruct (commonPrefix a b) as [p [ra rb]].
      destruct IH as [Ha Hb]. cbn. split; congruence.
    + cbn. split; reflexivity.
Qed.

Lemma commonPrefix_same (a : string) :
  commonPrefix a a = (a, (EmptyString, EmptyString)).
Proof.
  induction a as [|x a IH]; [reflexivity|].
  cbn [commonPrefix]. rewrite Ascii.eqb_refl, IH. reflexivity.
Qed.

Lemma sideText_app (skip : Z) (x y : list (Z * string)) :
  sideText skip (x ++ y) = (sideText skip x ++ sideText skip y)%string.
Proof.
  induction x as [|[op t] x IH]; [reflexivity|].
  cbn. fold (sideText skip (x ++ y)). fold (sideText skip x). rewrite IH.
  destruct (op =? skip)%Z; [reflexivity|].
  clear. induction t as [|c t IHt]; cbn; [reflexivity | rewrite IHt; reflexivity].
Qed.

Lemma append_empty_r (s : string) : (s ++ "")%string = s.
Proof. induction s as [|c s IH]; cbn; [reflexivity | rewrite IH; reflexivity]. Qed.

Lemma sideText_span (skip op : Z) (s : string) :
  sideText skip (span op s) = if (op =? skip)%Z then EmptyString else s.
Proof.
  unfold span. destruct s as [|c s]; cbn.
  - destruct (op =? skip)%Z; reflexivity.
  - destruct (op =? skip)%Z; [reflexivity|]. rewrite append_empty_r. reflexivity.
Qed.

Lemma prefix_diff_reconstructs (a b : string) :
  sideText 1 (prefix_diff a b) = a /\ sideText (-1) (prefix_diff a b) = b.
Proof.
  unfold prefix_diff. pose proof (commonPrefix_spec a b) as H.
  destruct (commonPrefix a b) as [p [ra rb]]. destruct H as [Ha Hb].
  rewrite !sideText_app, !sideText_span. cbn [Z.eqb Pos.eqb].
  rewrite !append_empty_r. cbn [append]. split; congruence.
Qed.

Lemma prefix_diff_equal (a : string) :
  isEmptyString a = false -> prefix_diff a a = [(0%Z, a)].
Proof.
  intros Ha. unfold prefix_diff. rewrite commonPrefix_same.
  unfold span. rewrite Ha. reflexivity.
Qed.

(** ** The statements above on concrete documents *)

(** C8 fails where no candidate scores above 0: the only candidate has the
    highest score, 0, and the matcher returns no candidate.  So it is for
    two paragraphs with no character in common, and, whatever the oracle,
    for a target with no text such as an image. *)
Lemma findBestMatch_returns_no_candidate_at_score_zero :
  candidateScores prefix_diff paragraphAlpha [paragraphXyz] = [(0 # 5)%Q] /\
  findBestMatch prefix_diff paragraphAlpha [paragraphXyz]
  = {| score := 0%Q; bestIndex := (-1)%Z |} /\
  ~ returnsFirstHighest prefix_diff paragraphAlpha [paragraphXyz]
      (findBestMatch prefix_diff paragraphAlpha [paragraphXyz]) /\
  (forall diff_main,
     findBestMatch diff_main (lineOf (imgElement "logo.png" "Logo") 0)
       [paragraphXyz]
     = {| score := 0%Q; bestIndex := (-1)%Z |}).
Proof.
  split; [reflexivity|]. split; [reflexivity|]. split.
  - intros (k & Hk & _). vm_compute in Hk. destruct k; discriminate Hk.
  - intros diff_main. reflexivity.
Qed.

(** C2 fails on a table and a paragraph with the same text: the pair is a
    match, and both sides come out unchanged with nothing counted. *)
Lemma kind_mismatch_with_equal_text_is_unchanged :
  kindOf tableTotal = Table /\ kindOf paragraphTotal = Text /\
  createOptimalAlignment prefix_diff [tableTotal] [paragraphTotal]
  = [matchAt 0] /\
  (forall wd,
     performLineMutualComparison prefix_diff wd [tableTotal] [paragraphTotal]
     = Ok ([spread tableTotal none None], [spread paragraphTotal none None],
           {| additions := 0; deletions := 0; changes := 0 |})) /\
  (forall wd st,
     classifyMatch wd st tableTotal paragraphTotal
     <> Ok (push st (spread tableTotal modified None)
              (spread paragraphTotal modified None) 1 1)).
Proof.
  split; [reflexivity|]. split; [reflexivity|]. split; [reflexivity|].
  split; [intros wd; reflexivity|].
  intros wd st H. vm_compute in H. injection H as H1 H2 _.
  apply app_inv_head in H1. discriminate H1.
Qed.

(** The hypotheses of C2 hold of a table and a paragraph with different
    texts: the word-level diff is run on their HTML. *)
Lemma kind_mismatch_falls_back_to_text_witness :
  oneKind tableTotal /\ oneKind paragraphSubtotal /\
  kind_eqb (kindOf tableTotal) (kindOf paragraphSubtotal) = false /\
  (forall wd st,
     classifyMatch wd st tableTotal paragraphSubtotal
     = bind (wd (html tableTotal) (html paragraphSubtotal))
         (fun hl =>
            Ok (push st (spread tableTotal modified (Some (fst hl)))
                  (spread paragraphSubtotal modified (Some (snd hl))) 1 1))).
Proof.
  split; [reflexivity|]. split; [reflexivity|]. split; [reflexivity|].
  intros wd st.
  exact (kind_mismatch_falls_back_to_text wd st tableTotal paragraphSubtotal
           eq_refl eq_refl eq_refl).
Defined.

(** The hypotheses of C3 hold at the first turn on [docLeft] and
    [docRight]: the left-ahead score is 1, the right-ahead score 0, and the
    new right paragraph is emitted as an insertion. *)
Lemma lookahead_decides_the_turn_witness :
  nth_error docLeft 0 = Some paragraphAlpha /\
  nth_error docRight 0 = Some paragraphNewLine /\
  directTest prefix_diff paragraphAlpha paragraphNewLine = false /\
  emits prefix_diff docLeft docRight 0 0
    (mkDecision None (Some 0) addition) (0, 1).
Proof.
  split; [reflexivity|]. split; [reflexivity|]. split; [reflexivity|].
  pose proof (lookahead_decides_the_turn prefix_diff docLeft docRight 0 0
                paragraphAlpha paragraphNewLine eq_refl eq_refl eq_refl) as T.
  cbv zeta in T. destruct T as (_ & _ & Hins & _).
  apply Hins. split; vm_compute; reflexivity.
Defined.

(** The hypotheses of C4 hold of two paragraphs that share four of five
    characters: the similarity is 4/5, the direct match is not taken, and
    with empty windows the turn ends in the forced match. *)
Lemma direct_match_threshold_witness :
  (getTextSimilarity prefix_diff "abcde" "abcdX" == threshold)%Q /\
  normalize "abcde" <> normalize "abcdX" /\
  align_step prefix_diff [lineOf (pElement "abcde") 0]
    [lineOf (pElement "abcdX") 0] 0 0
  = Some (ForcedMatch, matchAt 0, (1, 1)) /\
  exists b d n,
    align_step prefix_diff [lineOf (pElement "abcde") 0]
      [lineOf (pElement "abcdX") 0] 0 0 = Some (b, d, n) /\
    isLookaheadBranch b = true.
Proof.
  split; [reflexivity|]. split; [vm_compute; discriminate|].
  split; [reflexivity|].
  pose proof (direct_match_threshold prefix_diff [lineOf (pElement "abcde") 0]
                [lineOf (pElement "abcdX") 0] 0 0 _ _ eq_refl eq_refl) as T.
  cbv zeta in T. destruct T as [_ T].
  apply T; [reflexivity | vm_compute; discriminate].
Defined.

(** The hypotheses of C6 hold of the reference oracle. *)
Lemma similarity_metric_witness :
  getTextSimilarity prefix_diff "abcde" "abcdX" = (4 # 5)%Q /\
  (getTextSimilarity prefix_diff "abcde" "abcde" == 1)%Q /\
  (0 <= getTextSimilarity prefix_diff "abcde" "abcdX" <= 1)%Q.
Proof.
  pose proof (similarity_metric prefix_diff prefix_diff_reconstructs
                prefix_diff_equal "abcde" "abcdX") as (_ & _ & H3 & H4 & H5).
  split; [exact (H3 eq_refl eq_refl)|]. split; [exact H4 | exact H5].
Defined.

(** The hypothesis of C7 holds of [sampleDoc]. *)
Lemma identity_alignment_witness :
  Forall hasElement sampleDoc /\
  createOptimalAlignment prefix_diff sampleDoc sampleDoc
  = [matchAt 0; matchAt 1; matchAt 2] /\
  performLineMutualComparison prefix_diff noDomWordDiff sampleDoc sampleDoc
  = Ok (map (fun l => spread l none None) sampleDoc,
        map (fun l => spread l none None) sampleDoc,
        {| additions := 0; deletions := 0; changes := 0 |}).
Proof.
  assert (H : Forall hasElement sampleDoc).
  { apply Forall_cons; [eexists; reflexivity|].
    apply Forall_cons; [eexists; reflexivity|].
    apply Forall_cons; [eexists; reflexivity|]. apply Forall_nil. }
  split; [exact H|].
  pose proof (identity_alignment prefix_diff noDomWordDiff sampleDoc H)
    as (H1 & _ & H3).
  split; [exact H1 | exact H3].
Defined.

(** The hypothesis of C9 holds of [null] against a string, which the
    predicates would otherwise throw on. *)
Lemma structural_predicates_null_safe_witness :
  (absent JNull \/ absent (JStr "x")) /\
  compareTableContent JNull (JStr "x") = Ok false /\
  compareImageContent JNull (JStr "x") = Ok false.
Proof.
  assert (H : absent JNull \/ absent (JStr "x"))
    by (left; left; reflexivity).
  split; [exact H|].
  pose proof (structural_predicates_null_safe noDomWordDiff JNull (JStr "x") H)
    as (H1 & H2 & _).
  split; [exact H1 | exact H2].
Defined.

(** ** Properties of the text normalizer *)

Lemma isWhiteSpace_lowerChar (c : ascii) :
  isWhiteSpace (lowerChar c) = isWhiteSpace c.
Proof. destruct c as [[] [] [] [] [] [] [] []]; reflexivity. Qed.

Lemma lowerChar_idempotent (c : ascii) : lowerChar (lowerChar c) = lowerChar c.
Proof. destruct c as [[] [] [] [] [] [] [] []]; reflexivity. Qed.

Lemma toLowerCase_idempotent (s : string) :
  toLowerCase (toLowerCase s) = toLowerCase s.
Proof.
  induction s as [|c s IH]; [reflexivity|].
  cbn. rewrite lowerChar_idempotent, IH. reflexivity.
Qed.

Lemma isEmptyString_toLowerCase (s : string) :
  isEmptyString (toLowerCase s) = isEmptyString s.
Proof. destruct s; reflexivity. Qed.

Lemma trimStart_toLowerCase (s : string) :
  trimStart (toLowerCase s) = toLowerCase (trimStart s).
Proof.
  induction s as [|c s IH]; [reflexivity|].
  cbn [toLowerCase trimStart]. rewrite isWhiteSpace_lowerChar.
  destruct (isWhiteSpace c); [exact IH | reflexivity].
Qed.

Lemma trimEnd_toLowerCase (s : string) :
  trimEnd (toLowerCase s) = toLowerCase (trimEnd s).
Proof.
  induction s as [|c s IH]; [reflexivity|].
  cbn [toLowerCase trimEnd]. cbv zeta.
  rewrite isWhiteSpace_lowerChar, IH, isEmptyString_toLowerCase.
  destruct (isWhiteSpace c && isEmptyString (trimEnd s)); reflexivity.
Qed.

Lemma trim_toLowerCase (s : string) : trim (toLowerCase s) = toLowerCase (trim s).
Proof. unfold trim. rewrite trimStart_toLowerCase, trimEnd_toLowerCase. reflexivity. Qed.

Lemma collapseWhiteSpace_toLowerCase (s : string) :
  forall inRun,
    collapseWhiteSpace inRun (toLowerCase s)
    = toLowerCase (collapseWhiteSpace inRun s).
Proof.
  induction s as [|c s IH]; intros inRun; [reflexivity|].
  cbn [toLowerCase collapseWhiteSpace]. rewrite isWhiteSpace_lowerChar.
  destruct (isWhiteSpace c).
  - destruct inRun; [apply IH|]. cbn [toLowerCase]. rewrite IH. reflexivity.
  - cbn [toLowerCase]. rewrite IH. reflexivity.
Qed.

Lemma trimEnd_idempotent (s : string) : trimEnd (trimEnd s) = trimEnd s.
Proof.
  induction s as [|c s IH]; [reflexivity|].
  cbn [trimEnd]. cbv zeta.
  destruct (isWhiteSpace c && isEmptyString (trimEnd s)) eqn:E; [reflexivity|].
  cbn [trimEnd]. cbv zeta. rewrite IH, E. reflexivity.
Qed.

Lemma startsClean_trimStart (s : string) : startsClean (trimStart s) = true.
Proof.
  induction s as [|c s IH]; [reflexivity|].
  cbn [trimStart]. destruct (isWhiteSpace c) eqn:E; [exact IH|].
  cbn. rewrite E. reflexivity.
Qed.

Lemma trimStart_clean (s : string) : startsClean s = true -> trimStart s = s.
Proof.
  destruct s as [|c s]; [reflexivity|]. cbn.
  destruct (isWhiteSpace c); [discriminate | reflexivity].
Qed.

Lemma startsClean_trimEnd (s : string) :
  startsClean s = true -> startsClean (trimEnd s) = true.
Proof.
  destruct s as [|c s]; [reflexivity|]. cbn [startsClean trimEnd]. cbv zeta.
  destruct (isWhiteSpace c) eqn:E; [discriminate|]. cbn. rewrite E. reflexivity.
Qed.

Lemma startsClean_collapse (s : string) (inRun : bool) :
  startsClean s = true -> startsClean (collapseWhiteSpace inRun s) = true.
Proof.
  destruct s as [|c s]; [reflexivity|]. cbn [startsClean collapseWhiteSpace].
  destruct (isWhiteSpace c) eqn:E; [discriminate|]. cbn. rewrite E. reflexivity.
Qed.

Lemma trim_idempotent (s : string) : trim (trim s) = trim s.
Proof.
  unfold trim.
  rewrite (trimStart_clean (trimEnd (trimStart s)))
    by (apply startsClean_trimEnd, startsClean_trimStart).
  apply trimEnd_idempotent.
Qed.

(** A string with a character that is not white space collapses to a
    non-empty string. *)
Lemma collapse_keeps_ink (s : string) :
  forall inRun,
    isEmptyString (trimEnd s) = false ->
    isEmptyString (collapseWhiteSpace inRun s) = false.
Proof.
  induction s as [|c s IH]; intros inRun; [discriminate|].
  cbn [trimEnd collapseWhiteSpace]. cbv zeta.
  destruct (isWhiteSpace c); cbn [andb]; [|reflexivity].
  destruct (isEmptyString (trimEnd s)) eqn:E; [discriminate|]. intros _.
  destruct inRun; [apply IH; reflexivity | reflexivity].
Qed.

Lemma trimEnd_collapse (s : string) :
  forall inRun,
    trimEnd s = s ->
    trimEnd (collapseWhiteSpace inRun s) = collapseWhiteSpace inRun s.
Proof.
  induction s as [|c s IH]; intros inRun; [reflexivity|].
  cbn [trimEnd collapseWhiteSpace]. cbv zeta.
  destruct (isWhiteSpace c) eqn:Ec; cbn [andb].
  - destruct (isEmptyString (trimEnd s)) eqn:E; [discriminate|].
    intros [= Hs].
    destruct inRun; [apply IH; exact Hs|].
    cbn [trimEnd]. cbv zeta. rewrite (IH true Hs).
    rewrite (collapse_keeps_ink s true E). reflexivity.
  - intros [= Hs]. cbn [trimEnd]. cbv zeta. rewrite Ec. cbn [andb].
    rewrite (IH false Hs). reflexivity.
Qed.

Lemma collapse_idempotent (s : string) :
  forall inRun,
    collapseWhiteSpace inRun (collapseWhiteSpace inRun s)
    = collapseWhiteSpace inRun s.
Proof.
  induction s as [|c s IH]; intros inRun; [reflexivity|].
  cbn [collapseWhiteSpace]. destruct (isWhiteSpace c) eqn:Ec.
  - destruct inRun; [apply IH|].
    cbn [collapseWhiteSpace]. change (isWhiteSpace " "%char) with true.
    cbv iota. rewrite IH. reflexivity.
  - cbn [collapseWhiteSpace]. rewrite Ec, IH. reflexivity.
Qed.

(** The string between the lower-casing and the trimming of [normalize]
    is left as it is by trimming and by collapsing. *)
Lemma collapsed_trim_fixed (s : string) :
  let u := collapseWhiteSpace false (trim s) in
  trim u = u /\ collapseWhiteSpace false u = u.
Proof.
  intros u. split; [|apply collapse_idempotent].
  unfold trim, u, trim.
  rewrite trimStart_clean.
  - apply trimEnd_collapse, trimEnd_idempotent.
  - apply startsClean_collapse, startsClean_trimEnd, startsClean_trimStart.
Qed.

(** X10. Normalizing is idempotent, so a text and its normal form always
    compare equal and compare alike with every other text. *)
Theorem normalize_idempotent (s t : string) :
  normalize (normalize s) = normalize s /\
  areTextsEqual (normalize s) s = true /\
  areTextsEqual (normalize s) t = areTextsEqual s t.
Proof.
  assert (H : normalize (normalize s) = normalize s).
  { unfold normalize.
    rewrite trim_toLowerCase, collapseWhiteSpace_toLowerCase,
      toLowerCase_idempotent.
    destruct (collapsed_trim_fixed s) as [Ht Hc].
    cbv zeta in Ht, Hc. rewrite Ht, Hc. reflexivity. }
  unfold areTextsEqual. rewrite H.
  split; [reflexivity|]. split; [apply String.eqb_refl | reflexivity].
Qed.


(** ** Further properties of the structural predicates *)

Lemma orString_some_default (s : string) : orString (Some s) "" = s.
Proof. destruct s; reflexivity. Qed.

Lemma cellsEqual_iff (cells1 cells2 : list string) :
  List.length cells1 = List.length cells2 /\ cellsEqual cells1 cells2 = true
  <-> map trim cells1 = map trim cells2.
Proof.
  revert cells2. induction cells1 as [|c1 t1 IH]; intros [|c2 t2];
    cbn [cellsEqual map List.length];
    try (split; [intros [H _]; discriminate H | discriminate]).
  - split; [reflexivity | split; reflexivity].
  - rewrite !orString_some_default.
    destruct (String.eqb (trim c1) (trim c2)) eqn:E; cbn [negb].
    + apply String.eqb_eq in E. split.
      * intros [Hlen Hc]. rewrite E. f_equal. apply IH. split; [lia | exact Hc].
      * intros [= _ H]. apply IH in H. destruct H as [Hlen Hc].
        split; [lia | exact Hc].
    + apply String.eqb_neq in E.
      split; [intros [_ H]; discriminate H | intros [= H _]; contradiction].
Qed.

Lemma rowsEqual_iff (rows1 rows2 : list (list string)) :
  List.length rows1 = List.length rows2 /\ rowsEqual rows1 rows2 = true
  <-> map (map trim) rows1 = map (map trim) rows2.
Proof.
  revert rows2. induction rows1 as [|r1 t1 IH]; intros [|r2 t2];
    cbn [rowsEqual map List.length];
    try (split; [intros [H _]; discriminate H | discriminate]).
  - split; [reflexivity | split; reflexivity].
  - pose proof (cellsEqual_iff r1 r2) as Hc.
    destruct (List.length r1 =? List.length r2) eqn:El; cbn [negb].
    + apply Nat.eqb_eq in El.
      destruct (cellsEqual r1 r2) eqn:Ec; cbn [negb].
      * split.
        -- intros [Hlen Hr]. f_equal; [apply Hc; split; [exact El | reflexivity]|].
           apply IH. split; [lia | exact Hr].
        -- intros [= _ H]. apply IH in H. destruct H as [Hlen Hr].
           split; [lia | exact Hr].
      * split; [intros [_ H]; discriminate H|].
        intros [= H _]. apply Hc in H. destruct H as [_ H]. discriminate H.
    + apply Nat.eqb_neq in El.
      split; [intros [_ H]; discriminate H|].
      intros [= H _]. apply Hc in H. destruct H as [H _]. contradiction.
Qed.

(** X12. On two elements the table predicate does not throw, and it
    answers true exactly when the two tables have the same rows of the
    same cells up to white space around each cell's text. *)
Theorem compareTableContent_iff_same_trimmed_cells (e1 e2 : dom_element) :
  exists verdict,
    compareTableContent (JElem e1) (JElem e2) = Ok verdict /\
    (verdict = true <-> trimmedRows e1 = trimmedRows e2).
Proof.
  unfold compareTableContent, trimmedRows. cbn.
  pose proof (rowsEqual_iff (el_rows e1) (el_rows e2)) as H.
  destruct (List.length (el_rows e1) =? List.length (el_rows e2)) eqn:El;
    cbn [negb].
  - apply Nat.eqb_eq in El. eexists. split; [reflexivity|].
    rewrite <- H. tauto.
  - apply Nat.eqb_neq in El. exists false. split; [reflexivity|].
    rewrite <- H. split; [discriminate | tauto].
Qed.

Lemma compareImageContent_elements (e1 e2 : dom_element) :
  compareImageContent (JElem e1) (JElem e2)
  = Ok (String.eqb (effectiveSrc e1) (effectiveSrc e2)
        && String.eqb (effectiveAlt e1) (effectiveAlt e2)).
Proof. reflexivity. Qed.

Lemma compareTableContent_true_iff (e1 e2 : dom_element) :
  compareTableContent (JElem e1) (JElem e2) = Ok true
  <-> trimmedRows e1 = trimmedRows e2.
Proof.
  unfold compareTableContent, trimmedRows. cbn.
  pose proof (rowsEqual_iff (el_rows e1) (el_rows e2)) as H.
  destruct (List.length (el_rows e1) =? List.length (el_rows e2)) eqn:El;
    cbn [negb].
  - apply Nat.eqb_eq in El. rewrite <- H.
    split; [intros [= Hr]; tauto | intros [_ ->]; reflexivity].
  - apply Nat.eqb_neq in El. rewrite <- H.
    split; [discriminate | tauto].
Qed.

Lemma compareImageContent_true_iff (e1 e2 : dom_element) :
  compareImageContent (JElem e1) (JElem e2) = Ok true
  <-> effectiveSrc e1 = effectiveSrc e2 /\ effectiveAlt e1 = effectiveAlt e2.
Proof.
  rewrite compareImageContent_elements.
  rewrite <- !String.eqb_eq, <- andb_true_iff.
  split; [intros [= ->]; reflexivity | intros ->; reflexivity].
Qed.

(** X13. On elements, table equality and image equality are symmetric and
    transitive (and an element equals itself): each is an equivalence. *)
Theorem structural_predicates_are_equivalences (e1 e2 e3 : dom_element) :
  (compareTableContent (JElem e1) (JElem e1) = Ok true /\
   compareImageContent (JElem e1) (JElem e1) = Ok true) /\
  (compareTableContent (JElem e1) (JElem e2) = Ok true ->
   compareTableContent (JElem e2) (JElem e1) = Ok true) /\
  (compareImageContent (JElem e1) (JElem e2) = Ok true ->
   compareImageContent (JElem e2) (JElem e1) = Ok true) /\
  (compareTableContent (JElem e1) (JElem e2) = Ok true ->
   compareTableContent (JElem e2) (JElem e3) = Ok true ->
   compareTableContent (JElem e1) (JElem e3) = Ok true) /\
  (compareImageContent (JElem e1) (JElem e2) = Ok true ->
   compareImageContent (JElem e2) (JElem e3) = Ok true ->
   compareImageContent (JElem e1) (JElem e3) = Ok true).
Proof.
  rewrite !compareTableContent_true_iff, !compareImageContent_true_iff.
  repeat split; try congruence.
  all: repeat match goal with H : _ /\ _ |- _ => destruct H end; congruence.
Qed.

(** ** The comparison with a working DOM *)

(** X18. When [escapeHtml] and [extractPlainText] do not throw, the
    comparison of two lists of lines whose element is a DOM element or
    null, run with the word-level diff of the source, does not throw: it
    returns the two output lists and the summary. *)
Theorem comparison_succeeds_with_a_working_dom
    (diff_main : string -> string -> list (Z * string))
    (escapeHtml extractPlainText : string -> result string)
    (diff_cleanupSemantic : list (Z * string) -> list (Z * string))
    (leftLines rightLines : list line) :
  (forall s, exists h, escapeHtml s = Ok h) ->
  (forall s, exists t, extractPlainText s = Ok t) ->
  Forall elementOrNull leftLines -> Forall elementOrNull rightLines ->
  exists lp rp s,
    performLineMutualComparison diff_main
      (wordLevelDiff diff_main escapeHtml extractPlainText diff_cleanupSemantic)
      leftLines rightLines
    = Ok (lp, rp, s).
Proof.
  intros Hesc Hext HLs HRs.
  unfold performLineMutualComparison.
  match goal with
  | |- context [bind ?c _] => destruct c as [st|e] eqn:E; cbn [bind]
  end.
  - do 3 eexists. reflexivity.
  - exfalso.
    pose proof (alignment_well_shaped_aux diff_main leftLines rightLines) as Hw.
    destruct (classifyAll_Throw _ _ _ _ e HLs HRs Hw _ E)
      as (L & R & _ & _ & H).
    destruct (wordLevelDiff_total diff_main escapeHtml extractPlainText
                diff_cleanupSemantic Hesc Hext (html L) (html R)) as [out Hout].
    congruence.
Qed.

(** ** The further statements on concrete documents *)

(** The hypothesis of X3 holds of [docLeft] against [docRight]. *)
Lemma mutual_comparison_keeps_every_block_witness :
  exists lp rp s,
    performLineMutualComparison prefix_diff noDomWordDiff docLeft docRight
    = Ok (lp, rp, s) /\
    originals lp = docLeft /\ originals rp = docRight /\
    List.length lp = 3 /\ List.length rp = 3.
Proof.
  do 3 eexists. split; [vm_compute; reflexivity|].
  pose proof (mutual_comparison_keeps_every_block prefix_diff noDomWordDiff
                docLeft docRight _ _ _ eq_refl) as (H1 & H2 & H3 & H4).
  split; [exact H1|]. split; [exact H2|]. split; reflexivity.
Defined.

(** The hypothesis of X4 holds of [docLeft] against [docRight]: one
    addition, no deletion. *)
Lemma summary_counts_the_tags_witness :
  exists lp rp s,
    performLineMutualComparison prefix_diff noDomWordDiff docLeft docRight
    = Ok (lp, rp, s) /\
    additions s = additionsOf rp /\ deletions s = deletionsOf lp /\
    additions s = 1 /\ deletions s = 0.
Proof.
  do 3 eexists. split; [vm_compute; reflexivity|].
  pose proof (summary_counts_the_tags prefix_diff noDomWordDiff
                docLeft docRight _ _ _ eq_refl) as (_ & H2 & H3 & _).
  split; [exact H2|]. split; [exact H3|]. split; reflexivity.
Defined.

(** The hypothesis of X5 holds of [docLeft] against [docRight]: 1 + 2 is
    0 + 3. *)
Lemma summary_net_change_witness :
  exists lp rp s,
    performLineMutualComparison prefix_diff noDomWordDiff docLeft docRight
    = Ok (lp, rp, s) /\
    additions s + List.length docLeft = deletions s + List.length docRight.
Proof.
  do 3 eexists. split; [vm_compute; reflexivity|].
  exact (summary_net_change prefix_diff noDomWordDiff docLeft docRight
           _ _ _ eq_refl).
Defined.

(** The hypotheses of X6 hold of two paragraphs with different texts
    compared where there is no DOM. *)
Lemma comparison_fails_only_in_the_word_diff_witness :
  Forall elementOrNull [paragraphTotal] /\
  Forall elementOrNull [paragraphSubtotal] /\
  performLineMutualComparison prefix_diff noDomWordDiff
    [paragraphTotal] [paragraphSubtotal]
  = Throw (DomError "document is not defined") /\
  exists L R, In L [paragraphTotal] /\ In R [paragraphSubtotal] /\
              noDomWordDiff (html L) (html R)
              = Throw (DomError "document is not defined").
Proof.
  assert (H1 : Forall elementOrNull [paragraphTotal])
    by (apply Forall_cons; [right; eexists; reflexivity | apply Forall_nil]).
  assert (H2 : Forall elementOrNull [paragraphSubtotal])
    by (apply Forall_cons; [right; eexists; reflexivity | apply Forall_nil]).
  split; [exact H1|]. split; [exact H2|]. split; [reflexivity|].
  exact (comparison_fails_only_in_the_word_diff prefix_diff noDomWordDiff
           [paragraphTotal] [paragraphSubtotal] _ H1 H2 eq_refl).
Defined.

(** The hypotheses of X8 hold of the reference oracle. *)
Lemma similarity_one_iff_same_string_witness :
  (getTextSimilarity prefix_diff "abcde" "abcde" == 1)%Q /\
  ~ (getTextSimilarity prefix_diff "abcde" "abcdX" == 1)%Q.
Proof.
  pose proof (similarity_one_iff_same_string prefix_diff
                prefix_diff_reconstructs prefix_diff_equal) as H.
  split; [apply (H "abcde" "abcde"); reflexivity|].
  intros Hc. apply (H "abcde" "abcdX") in Hc. discriminate Hc.
Defined.

(** The hypothesis of X9 holds of the reference oracle. *)
Lemma findBestMatch_result_in_range_witness :
  (0 <= score (findBestMatch prefix_diff paragraphAlpha docRight) <= 1)%Q /\
  (-1 <= bestIndex (findBestMatch prefix_diff paragraphAlpha docRight) < 3)%Z.
Proof.
  pose proof (findBestMatch_result_in_range prefix_diff
                prefix_diff_reconstructs paragraphAlpha docRight)
    as (H1 & H2 & _).
  split; [exact H1 | exact H2].
Defined.

(** The hypotheses of X15 hold of the reference character diff. *)
Lemma compareDocuments_renders_back_witness :
  renderHtmlDifferences
    (tc_leftDiffs (compareDocuments prefix_changes "abcde" "abcdX")) = "abcde" /\
  renderHtmlDifferences
    (tc_rightDiffs (compareDocuments prefix_changes "abcde" "abcdX")) = "abcdX".
Proof.
  apply (compareDocuments_renders_back prefix_changes "abcde" "abcdX").
  - repeat (apply Forall_cons; [reflexivity|]). apply Forall_nil.
  - reflexivity.
  - reflexivity.
Defined.

(** The hypothesis of X17 holds of the reference DOM. *)
Lemma report_is_positional_witness :
  List.length
    (lines (generateSimpleDetailedReport prefix_diff referenceEscapeHtml
              noCleanup docLeft docRight)) = 3 /\
  map status
    (lines (generateSimpleDetailedReport prefix_diff referenceEscapeHtml
              noCleanup docLeft docRight))
  = ["MODIFIED"; "MODIFIED"; "ADDED"].
Proof.
  pose proof (report_is_positional prefix_diff referenceEscapeHtml noCleanup
                (fun s => ex_intro _ _ eq_refl) docLeft docRight)
    as (H & _).
  split; [exact H | reflexivity].
Defined.

(** The hypothesis of X19 holds of the reference DOM. *)
Lemma report_counts_witness :
  count_occ string_dec
    (map status
       (lines (generateSimpleDetailedReport prefix_diff referenceEscapeHtml
                 noCleanup docLeft docRight))) "ADDED" = 1 /\
  count_occ string_dec
    (map status
       (lines (generateSimpleDetailedReport prefix_diff referenceEscapeHtml
                 noCleanup docLeft docRight))) "REMOVED" = 0.
Proof.
  pose proof (report_counts prefix_diff referenceEscapeHtml noCleanup
                (fun s => ex_intro _ _ eq_refl) docLeft docRight)
    as (H1 & H2 & _).
  split; [exact H2 | exact H1].
Defined.

(** The hypotheses of X18 hold of the reference DOM on two paragraphs
    with different texts, where the word-level diff runs. *)
Lemma comparison_succeeds_with_a_working_dom_witness :
  exists lp rp s,
    performLineMutualComparison prefix_diff
      (wordLevelDiff prefix_diff referenceEscapeHtml referenceExtractPlainText
         noCleanup)
      [paragraphTotal] [paragraphTotals]
    = Ok (lp, rp, s).
Proof.
  apply (comparison_succeeds_with_a_working_dom prefix_diff
           referenceEscapeHtml referenceExtractPlainText noCleanup).
  - intros s. eexists; reflexivity.
  - intros s. eexists; reflexivity.
  - apply Forall_cons; [right; eexists; reflexivity | apply Forall_nil].
  - apply Forall_cons; [right; eexists; reflexivity | apply Forall_nil].
Defined.

(** The hypothesis of X20 holds of [docLeft] against [docRight] with the
    reference DOM: two modified rows and one added row. *)
Lemma positional_comparison_shape_witness :
  exists lp rp s,
    performLineMutualComparison_positional
      (wordLevelDiff prefix_diff referenceEscapeHtml referenceExtractPlainText
         noCleanup)
      docLeft docRight
    = Ok (lp, rp, s) /\
    List.length lp = 3 /\ List.length rp = 3 /\
    originals (map body lp) = docLeft /\
    additions s + List.length docLeft = deletions s + List.length docRight.
Proof.
  do 3 eexists. split; [vm_compute; reflexivity|].
  pose proof (positional_comparison_shape
                (wordLevelDiff prefix_diff referenceEscapeHtml
                   referenceExtractPlainText noCleanup)
                docLeft docRight _ _ _ eq_refl) as (H1 & H2 & H3 & _ & H5 & _).
  split; [exact H1|]. split; [exact H2|]. split; [exact H3 | exact H5].
Defined.

(** ** The lines that extraction builds *)

(** X23. A line object as [extractDocumentLines] builds it carries its DOM
    element, is never both a table and an image, has a text with no white
    space around it, and is flagged empty exactly when it has no text and
    is neither a table nor an image. *)
Theorem extracted_line_invariants (e : dom_element) (idx : nat) :
  hasElement (lineOf e idx) /\
  elementOrNull (lineOf e idx) /\
  oneKind (lineOf e idx) /\
  trim (text (lineOf e idx)) = text (lineOf e idx) /\
  (isEmpty (lineOf e idx) = true <->
   text (lineOf e idx) = "" /\ kindOf (lineOf e idx) = Text).
Proof.
  split; [eexists; reflexivity|].
  split; [right; eexists; reflexivity|].
  assert (Hone : oneKind (lineOf e idx)).
  { unfold oneKind, lineOf. cbn [isTable isImage].
    destruct (String.eqb (toLowerCase (el_tagName e)) "table") eqn:E;
      [|reflexivity].
    apply String.eqb_eq in E. rewrite E. reflexivity. }
  split; [exact Hone|]. split.
  - unfold lineOf. cbn [text]. apply trim_idempotent.
  - unfold oneKind in Hone. unfold kindOf. revert Hone.
    unfold lineOf. cbn [text isEmpty isTable isImage].
    destruct (trim (orString (Some (el_textContent e)) "")) as [|c s];
      destruct (String.eqb (toLowerCase (el_tagName e)) "table");
      destruct (String.eqb (toLowerCase (el_tagName e)) "img"
                || String.eqb (toLowerCase (el_tagName e)) "figure");
      cbn; intros _; split; try discriminate; try tauto;
      intros [H1 H2]; discriminate.
Qed.

(** The hypotheses of X24 hold of [sampleDoc] and the same document with a
    paragraph appended, for the three leading blocks. *)
Lemma equal_leading_blocks_match_in_place_witness :
  firstn 3 (createOptimalAlignment prefix_diff sampleDoc
              (sampleDoc ++ [paragraphNewLine]))
  = [matchAt 0; matchAt 1; matchAt 2].
Proof.
  apply (equal_leading_blocks_match_in_place prefix_diff sampleDoc
           (sampleDoc ++ [paragraphNewLine]) 3).
  - cbn. lia.
  - cbn. lia.
  - intros [|[|[|i]]] l r Hi Hl Hr; try lia;
      injection Hl as <-; injection Hr as <-; reflexivity.
Defined.
